(** * Subtitle ingestion and search: a shallow embedding

    The development follows [get_subtitle.py] (class
    [YouTubeSubtitleDownloader]) and [playword.py] (class
    [SubtitleSearchPlayer]).  Of [webview_player.py] (class
    [YouTubePlayer]) it has the part that turns a replay reference into
    the embedded player's address.

    - Python [str] values are lists of Unicode code points.
    - Python [float] values and SQLite [REAL] values are binary64 numbers
      (Rocq's primitive floats).
    - Python [int] values are [Z].
    - The SQLite table [subtitles] is the list of its rows in rowid order;
      every statement on it succeeds (no I/O error, no lock).
    - Exceptions are values of [exn]; a function that can raise returns a
      [result].
    - The track fetcher and the pool's completion order are parameters of
      the program; the calls of a batch take effect one after the other.
    - Output on the terminal ([print]) and wall-clock readings
      ([time.time()], the [processing_time] entry, the [created_at]
      column) are left out: nothing below reads them. *)

From Stdlib Require Import ZArith NArith List Bool Lia.
From Stdlib Require Import Ascii String DecimalString.
From Stdlib Require DecimalPos.
From Stdlib Require Import Floats.
From Stdlib Require Import Sorting.Sorted Sorting.Permutation.
Import ListNotations.

Set Warnings "-inexact-float".

(** ** Strings *)

Definition char := N.
Definition str := list char.

Fixpoint str_eqb (a b : str) : bool :=
  match a, b with
  | [], [] => true
  | x :: a', y :: b' => N.eqb x y && str_eqb a' b'
  | _, _ => false
  end.

(** Comparison of two [TEXT] values under SQLite's default [BINARY]
    collation: [memcmp] on the UTF-8 encodings, which orders strings as the
    lexicographic order of their code points does. *)
Fixpoint str_compare (a b : str) : comparison :=
  match a, b with
  | [], [] => Eq
  | [], _ :: _ => Lt
  | _ :: _, [] => Gt
  | x :: a', y :: b' =>
      match N.compare x y with
      | Eq => str_compare a' b'
      | c => c
      end
  end.

(** Decoding of the UTF-8 bytes of a literal into code points: only a way
    to write [str] constants. *)
Fixpoint utf8_decode (fuel : nat) (bs : list N) : str :=
  match fuel with
  | O => []
  | S fuel' =>
      match bs with
      | [] => []
      | b :: rest =>
          if (b <? 128)%N then b :: utf8_decode fuel' rest
          else if (b <? 224)%N then
            match rest with
            | c1 :: rest' =>
                ((b - 192) * 64 + (c1 - 128))%N :: utf8_decode fuel' rest'
            | _ => []
            end
          else if (b <? 240)%N then
            match rest with
            | c1 :: c2 :: rest' =>
                ((b - 224) * 4096 + (c1 - 128) * 64 + (c2 - 128))%N
                  :: utf8_decode fuel' rest'
            | _ => []
            end
          else
            match rest with
            | c1 :: c2 :: c3 :: rest' =>
                ((b - 240) * 262144 + (c1 - 128) * 4096
                 + (c2 - 128) * 64 + (c3 - 128))%N
                  :: utf8_decode fuel' rest'
            | _ => []
            end
      end
  end.

Definition lit (s : string) : str :=
  let bs := map N_of_ascii (list_ascii_of_string s) in
  utf8_decode (List.length bs) bs.

(** [prefix in s]: [strip_prefix p s] is what follows [p] when [s] starts
    with [p]. *)
Fixpoint strip_prefix (p s : str) : option str :=
  match p with
  | [] => Some s
  | x :: p' =>
      match s with
      | y :: s' => if N.eqb x y then strip_prefix p' s' else None
      | [] => None
      end
  end.

Definition starts_with (p s : str) : bool :=
  match strip_prefix p s with Some _ => true | None => false end.

(** Python's [sub in s]. *)
Fixpoint contains (sub s : str) : bool :=
  starts_with sub s
  || match s with
     | [] => false
     | _ :: s' => contains sub s'
     end.

(** Python's [str.isspace] on one code point, the set [str.strip()] removes. *)
Definition is_space (c : char) : bool :=
  ((9 <=? c) && (c <=? 13) || (28 <=? c) && (c <=? 32)
   || (c =? 133) || (c =? 160) || (c =? 5760)
   || (8192 <=? c) && (c <=? 8202)
   || (c =? 8232) || (c =? 8233) || (c =? 8239) || (c =? 8287)
   || (c =? 12288))%N.

Fixpoint lstrip (s : str) : str :=
  match s with
  | c :: s' => if is_space c then lstrip s' else s
  | [] => []
  end.

Definition strip (s : str) : str := rev (lstrip (rev (lstrip s))).

(** ** Exceptions *)

Inductive exn :=
| ValueError (msg : str)
| OverflowError (msg : str).

(** [str(e)] *)
Definition exn_message (e : exn) : str :=
  match e with
  | ValueError m => m
  | OverflowError m => m
  end.

Inductive result (A : Type) :=
| Ok (a : A)
| Raise (e : exn).
Arguments Ok {A} a.
Arguments Raise {A} e.

Definition bind {A B} (r : result A) (k : A -> result B) : result B :=
  match r with
  | Ok a => k a
  | Raise e => Raise e
  end.

Notation "x <- r ;; k" := (bind r (fun x => k))
  (at level 61, r at next level, right associativity).

Definition default {A} (d : A) (o : option A) : A :=
  match o with Some a => a | None => d end.

(** ** Numbers *)

(** Conversion of a Python [int] to [float], as arithmetic between an
    [int] and a [float] performs it: rounded to nearest, ties to even, and
    [OverflowError] beyond the binary64 range. *)
Definition float_of_int (z : Z) : result float :=
  let f := SF2Prim (binary_normalize prec emax z 0 false) in
  if is_infinity f
  then Raise (OverflowError (lit "int too large to convert to float"))
  else Ok f.

(** The integer part of a finite binary64 number, rounded towards zero. *)
Definition truncate (x : float) : Z :=
  match Prim2SF x with
  | S754_finite s m e => cond_Zopp s (Z.shiftl (Zpos m) e)
  | _ => 0%Z
  end.

(** Python's [int(x)] on a [float]. *)
Definition int_of_float (x : float) : result Z :=
  if is_nan x
  then Raise (ValueError (lit "cannot convert float NaN to integer"))
  else if is_infinity x
  then Raise (OverflowError (lit "cannot convert float infinity to integer"))
  else Ok (truncate x).

(** [str(n)] on an [int]. *)
Definition decimal (n : Z) : str :=
  lit (NilZero.string_of_int (Z.to_int n)).

(** ** The Record Store: table [subtitles] *)

(** One row, with the seven columns every [INSERT] and [SELECT] of the
    program names.  The [id] column (autoincrement) and [created_at] are
    filled in by SQLite and never read. *)
Record row := {
  video_id : str;
  video_url : str;
  japanese_text : str;
  start_time : float;
  end_time : float;
  duration : float;
  sequence_number : Z
}.

Definition table := list row.

(** [UNIQUE(video_id, start_time, japanese_text)]: two rows conflict when
    the three columns compare equal, text under [BINARY] collation and the
    [REAL] column numerically. *)
Definition same_key (a b : row) : bool :=
  str_eqb (video_id a) (video_id b)
  && (start_time a =? start_time b)%float
  && str_eqb (japanese_text a) (japanese_text b).

(** SQLite binds a NaN as [NULL], so a NaN in one of the three
    [REAL NOT NULL] columns violates the constraint. *)
Definition not_null (r : row) : bool :=
  negb (is_nan (start_time r)) && negb (is_nan (end_time r))
  && negb (is_nan (duration r)).

(** [INSERT OR IGNORE INTO subtitles (...) VALUES (...)], with the
    cursor's [rowcount] afterwards. *)
Definition insert_or_ignore (t : table) (r : row) : table * Z :=
  if not_null r && negb (existsb (fun a => same_key a r) t)
  then (t ++ [r], 1%Z)
  else (t, 0%Z).

(** [SELECT COUNT( * ) FROM subtitles WHERE video_id = ?] *)
Definition count_video (t : table) (vid : str) : Z :=
  Z.of_nat (List.length (filter (fun r => str_eqb (video_id r) vid) t)).

(** ** Raw payloads and the subtitle directory *)

(** One entry of an event's ['segs'] list; [utf8] is [None] when the key
    is missing. *)
Record seg := { utf8 : option str }.

(** One event of a json3 track; every key may be missing.  The offsets
    are millisecond counts. *)
Record event := {
  segs : option (list seg);
  tStartMs : option Z;
  dDurationMs : option Z
}.

(** A file of the subtitle directory: a JSON object with its ['events']
    entry when it has one, or content that [json.load] or the traversal
    rejects. *)
Inductive file :=
| Json3 (events : option (list event))
| Unreadable.

Definition files := list (str * file).

Fixpoint read_file (fs : files) (path : str) : option file :=
  match fs with
  | [] => None
  | (p, f) :: fs' => if str_eqb p path then Some f else read_file fs' path
  end.

(** [os.remove(path)] *)
Definition remove_file (fs : files) (path : str) : files :=
  filter (fun pf => negb (str_eqb (fst pf) path)) fs.

(** How a run of the external track fetcher ends: with a return code, or
    with [subprocess.run] raising (time-out, tool not found). *)
Inductive process :=
| Exited (returncode : Z)
| Died.

(** The external track fetcher ([yt-dlp] run on an output directory and a
    reference): how the run ends and what the directory holds afterwards. *)
Definition fetcher := str -> str -> files -> process * files.

(** What the program acts on: the table, the subtitle directory, and the
    list of references the track fetcher has been run on. *)
Record world := {
  db : table;
  fs : files;
  fetched : list str
}.

(** ** Outcomes and reports *)

Inductive status := success | failed | skipped | no_subtitles | error.

Module Outcome.
Record t := {
  video_id : str;
  url : str;
  status : status;
  error : option str;
  subtitle_count : Z
}.
End Outcome.

Module Report.
Record t := {
  success : Z;
  failed : Z;
  skipped : Z;
  no_subtitles : Z;
  total_subtitles : Z;
  details : list Outcome.t
}.
End Report.

(** ** Search results and context items *)

Module Result.
Record t := {
  video_id : str;
  video_url : str;
  japanese_text : str;
  start_time : float;
  end_time : float;
  duration : float;
  sequence_number : Z;
  timestamp_url : str
}.
End Result.

Module Item.
Record t := {
  text : str;
  start_time : float;
  end_time : float;
  sequence_number : Z;
  is_target : bool
}.
End Item.

(** The [filters] dictionary of [advanced_search]; an entry is [None]
    when its key is missing or holds [None]. *)
Module Filters.
Record t := {
  min_duration : option float;
  max_duration : option float;
  video_ids : option (list str);
  exclude_short : option bool
}.
End Filters.

(** ** Reference Parser: [extract_video_id] *)

(** The character class [[0-9A-Za-z_-]]. *)
Definition is_id_char (c : char) : bool :=
  ((48 <=? c) && (c <=? 57) || (65 <=? c) && (c <=? 90)
   || (97 <=? c) && (c <=? 122) || (c =? 95) || (c =? 45))%N.

(** The group [([0-9A-Za-z_-]{11})] matched at the head of [s]. *)
Definition id_group (s : str) : option str :=
  let g := firstn 11 s in
  if Nat.eqb (List.length g) 11 && forallb is_id_char g then Some g else None.

(** A pattern [(?:p1|p2|...)([0-9A-Za-z_-]{11})] is the list of its
    alternatives.  The first pattern of the source ends in [.*], which
    matches whatever follows and captures nothing. *)
Definition pattern := list str.

(** The pattern matched at the head of [s]: the alternatives are tried from
    left to right; the value is group 1. *)
Fixpoint match_here (alternatives : pattern) (s : str) : option str :=
  match alternatives with
  | [] => None
  | p :: rest =>
      match strip_prefix p s with
      | Some s' =>
          match id_group s' with
          | Some g => Some g
          | None => match_here rest s
          end
      | None => match_here rest s
      end
  end.

(** [re.search(pattern, s)] followed by [match.group(1)]: the leftmost
    position at which the pattern matches. *)
Fixpoint re_search (p : pattern) (s : str) : option str :=
  match match_here p s with
  | Some g => Some g
  | None =>
      match s with
      | [] => None
      | _ :: s' => re_search p s'
      end
  end.

Definition patterns : list pattern :=
  [ [lit "v="; lit "/"];
    [lit "embed/"];
    [lit "v/"] ].

Fixpoint first_match (ps : list pattern) (url : str) : option str :=
  match ps with
  | [] => None
  | p :: ps' =>
      match re_search p url with
      | Some g => Some g
      | None => first_match ps' url
      end
  end.

Definition extract_video_id (url : str) : result str :=
  match first_match patterns url with
  | Some g => Ok g
  | None =>
      Raise (ValueError (lit "Could not extract video ID from URL: " ++ url))
  end.

(** ** Replay Reference Builder: [create_timestamp_url] *)

Definition is_ascii_digit (c : char) : bool := ((48 <=? c) && (c <=? 57))%N.

(** The class [[&#]]. *)
Definition is_amp_or_hash (c : char) : bool := ((c =? 38) || (c =? 35))%N.

Section Program.

(** [\d] in a [str] pattern matches every Unicode decimal digit.  The
    ASCII ones are fixed; the table of the others belongs to the Python
    build and is taken as given. *)
Variable unicode_Nd : char -> bool.

Definition re_digit (c : char) : bool :=
  if (c <? 128)%N then is_ascii_digit c else unicode_Nd c.

(** The number of leading characters of [s] that [\d] matches. *)
Fixpoint count_digits (s : str) : nat :=
  match s with
  | c :: s' => if re_digit c then S (count_digits s') else O
  | [] => O
  end.

(** The length of the match of [[&#]key=\d+] at the head of [s], if it
    matches there; [\d+] is greedy. *)
Definition marker_length (key : str) (s : str) : option nat :=
  match s with
  | c :: s' =>
      if is_amp_or_hash c then
        match strip_prefix (key ++ lit "=") s' with
        | Some ds =>
            match count_digits ds with
            | O => None
            | n => Some (1 + List.length key + 1 + n)%nat
            end
        | None => None
        end
      else None
  | [] => None
  end.

(** [re.sub(r'[&#]key=\d+', '', s)]: every match is removed, matches
    being taken from left to right without overlap.  [skip] counts the
    characters of the current match still to drop. *)
Fixpoint remove_markers (key : str) (skip : nat) (s : str) : str :=
  match s with
  | [] => []
  | c :: s' =>
      match skip with
      | S k => remove_markers key k s'
      | O =>
          match marker_length key s with
          | Some (S k) => remove_markers key k s'
          | _ => c :: remove_markers key O s'
          end
      end
  end.

Definition create_timestamp_url (video_url : str) (start_time : float)
  : result str :=
  start_seconds <- int_of_float start_time ;;
  let video_url :=
    if contains (lit "t=") video_url || contains (lit "#t=") video_url
    then remove_markers (lit "start") O (remove_markers (lit "t") O video_url)
    else video_url in
  let separator :=
    if contains (lit "?") video_url then lit "&" else lit "?" in
  Ok (video_url ++ separator ++ lit "t=" ++ decimal start_seconds ++ lit "s").

(** ** Track Normalizer and store loop: [parse_subtitle_file] *)

(** [n / 1000.0] for an [int] offset [n]. *)
Definition ms_to_seconds (ms : Z) : result float :=
  f <- float_of_int ms ;;
  Ok (f / 1000)%float.

(** The text of an event that has ['segs']: the segments' ['utf8'] entries
    joined (a missing entry counts as the empty string), then stripped. *)
Definition event_text (ev : event) : option str :=
  match segs ev with
  | Some ss =>
      Some (strip (List.concat (map (fun s => default [] (utf8 s)) ss)))
  | None => None
  end.

(** The body of the loop up to the [INSERT]: the tuple of values bound to
    the statement for the event at position [i], or [None] when the event
    is passed over. *)
Definition event_row (video_id video_url : str) (i : Z) (ev : event)
  : result (option row) :=
  match event_text ev with
  | None => Ok None
  | Some [] => Ok None
  | Some japanese_text =>
      start_time <- ms_to_seconds (default 0%Z (tStartMs ev)) ;;
      duration <- ms_to_seconds (default 0%Z (dDurationMs ev)) ;;
      let end_time := (start_time + duration)%float in
      Ok (Some {| video_id := video_id;
                  video_url := video_url;
                  japanese_text := japanese_text;
                  start_time := start_time;
                  end_time := end_time;
                  duration := duration;
                  sequence_number := i |})
  end.

(** [for i, event in enumerate(events): ...] on the table of the open
    connection; [i] is the position of the head of [events]. *)
Fixpoint insert_events (video_id video_url : str) (i : Z)
    (events : list event) (t : table) (inserted_count : Z)
  : result (table * Z) :=
  match events with
  | [] => Ok (t, inserted_count)
  | ev :: rest =>
      values <- event_row video_id video_url i ev ;;
      match values with
      | None =>
          insert_events video_id video_url (i + 1) rest t inserted_count
      | Some r =>
          let (t', rowcount) := insert_or_ignore t r in
          insert_events video_id video_url (i + 1) rest t'
            (if (rowcount >? 0)%Z then inserted_count + 1 else inserted_count)%Z
      end
  end.

Definition subtitle_files (output_dir video_id : str) : list str :=
  [ output_dir ++ lit "/" ++ video_id ++ lit ".ja.json3";
    output_dir ++ lit "/" ++ video_id ++ lit ".ja-orig.json3" ].

(** [for subtitle_file in subtitle_files: ...].  A pass that raises leaves
    its connection uncommitted, so none of its inserts reaches the table,
    and leaves the file in place; the loop goes on with the next file. *)
Fixpoint parse_files (video_id video_url : str) (paths : list str)
    (w : world) : Z * world :=
  match paths with
  | [] => (0%Z, w)
  | subtitle_file :: rest =>
      match read_file (fs w) subtitle_file with
      | None => parse_files video_id video_url rest w
      | Some Unreadable => parse_files video_id video_url rest w
      | Some (Json3 events) =>
          match insert_events video_id video_url 0 (default [] events)
                  (db w) 0 with
          | Ok (t', inserted_count) =>
              (inserted_count,
               {| db := t';
                  fs := remove_file (fs w) subtitle_file;
                  fetched := fetched w |})
          | Raise _ => parse_files video_id video_url rest w
          end
      end
  end.

Definition parse_subtitle_file (video_id video_url output_dir : str)
    (w : world) : Z * world :=
  parse_files video_id video_url (subtitle_files output_dir video_id) w.

(** ** Ingestion Coordinator: [download_subtitle], [process_single_video] *)

Variable yt_dlp : fetcher.

Definition download_subtitle (video_url output_dir : str) (w : world)
  : (bool * str) * world :=
  match extract_video_id video_url with
  | Raise _ => ((false, []), w)
  | Ok video_id =>
      let (p, fs') := yt_dlp output_dir video_url (fs w) in
      let w' := {| db := db w; fs := fs';
                   fetched := fetched w ++ [video_url] |} in
      match p with
      | Exited returncode =>
          if (returncode =? 0)%Z then ((true, video_id), w')
          else ((false, video_id), w')
      | Died => ((false, []), w')
      end
  end.

(** The [try] block of [process_single_video]. *)
Definition process_single_video_try (video_url : str) (w : world)
  : result Outcome.t * world :=
  match extract_video_id video_url with
  | Raise e => (Raise e, w)
  | Ok video_id =>
      let existing_count := count_video (db w) video_id in
      if (existing_count >? 0)%Z then
        (Ok {| Outcome.video_id := video_id;
               Outcome.url := video_url;
               Outcome.status := skipped;
               Outcome.error := None;
               Outcome.subtitle_count := existing_count |}, w)
      else
        let '((ok, returned_video_id), w1) :=
          download_subtitle video_url (lit "subtitles") w in
        if ok then
          let (subtitle_count, w2) :=
            parse_subtitle_file returned_video_id video_url
              (lit "subtitles") w1 in
          (Ok {| Outcome.video_id := returned_video_id;
                 Outcome.url := video_url;
                 Outcome.status :=
                   if (subtitle_count >? 0)%Z then success else no_subtitles;
                 Outcome.error := None;
                 Outcome.subtitle_count := subtitle_count |}, w2)
        else
          (Ok {| Outcome.video_id := video_id;
                 Outcome.url := video_url;
                 Outcome.status := failed;
                 Outcome.error := None;
                 Outcome.subtitle_count := 0 |}, w1)
  end.

(** [try: ... except Exception as e: return {...}] *)
Definition process_single_video (video_url : str) (w : world)
  : Outcome.t * world :=
  match process_single_video_try video_url w with
  | (Ok o, w') => (o, w')
  | (Raise e, w') =>
      ({| Outcome.video_id := lit "unknown";
          Outcome.url := video_url;
          Outcome.status := error;
          Outcome.error := Some (exn_message e);
          Outcome.subtitle_count := 0 |}, w')
  end.

(** ** Batch Scheduler: [process_video_list] *)

Definition empty_report : Report.t :=
  {| Report.success := 0; Report.failed := 0; Report.skipped := 0;
     Report.no_subtitles := 0; Report.total_subtitles := 0;
     Report.details := [] |}.

(** The body of [for future in as_completed(future_to_url)]. *)
Definition tally (results : Report.t) (result : Outcome.t) : Report.t :=
  let results :=
    {| Report.success := Report.success results;
       Report.failed := Report.failed results;
       Report.skipped := Report.skipped results;
       Report.no_subtitles := Report.no_subtitles results;
       Report.total_subtitles := Report.total_subtitles results;
       Report.details := Report.details results ++ [result] |} in
  match Outcome.status result with
  | success =>
      {| Report.success := Report.success results + 1;
         Report.failed := Report.failed results;
         Report.skipped := Report.skipped results;
         Report.no_subtitles := Report.no_subtitles results;
         Report.total_subtitles :=
           Report.total_subtitles results + Outcome.subtitle_count result;
         Report.details := Report.details results |}
  | failed | error =>
      {| Report.success := Report.success results;
         Report.failed := Report.failed results + 1;
         Report.skipped := Report.skipped results;
         Report.no_subtitles := Report.no_subtitles results;
         Report.total_subtitles := Report.total_subtitles results;
         Report.details := Report.details results |}
  | skipped =>
      {| Report.success := Report.success results;
         Report.failed := Report.failed results;
         Report.skipped := Report.skipped results + 1;
         Report.no_subtitles := Report.no_subtitles results;
         Report.total_subtitles :=
           Report.total_subtitles results + Outcome.subtitle_count result;
         Report.details := Report.details results |}
  | no_subtitles =>
      {| Report.success := Report.success results;
         Report.failed := Report.failed results;
         Report.skipped := Report.skipped results;
         Report.no_subtitles := Report.no_subtitles results + 1;
         Report.total_subtitles := Report.total_subtitles results;
         Report.details := Report.details results |}
  end%Z.

(** The workers, each run to its end before the next starts. *)
Fixpoint run_workers (video_urls : list str) (w : world)
  : list Outcome.t * world :=
  match video_urls with
  | [] => ([], w)
  | url :: rest =>
      let (o, w1) := process_single_video url w in
      let (os, w2) := run_workers rest w1 in
      (o :: os, w2)
  end.

(** The order in which the pool completes the submitted calls.  The
    pool's threads are not modelled: [as_completed] yields the futures in
    the order [schedule] gives, and the calls take effect in that order. *)
Variable schedule : list str -> list str.

Definition process_video_list (video_urls : list str)
    (max_workers : option Z) (w : world) : result Report.t * world :=
  if (default 3 max_workers <=? 0)%Z
  then (Raise (ValueError (lit "max_workers must be greater than 0")), w)
  else
    let (outcomes, w') := run_workers (schedule video_urls) w in
    (Ok (fold_left tally outcomes empty_report), w').

(** ** Queries of the Search Engine and the Context Resolver *)

(** [ORDER BY]: the rows sorted on a key.  SQLite leaves the order of rows
    with equal keys open; here they keep their rowid order. *)
Fixpoint insert_by {A} (leb : A -> A -> bool) (x : A) (l : list A) : list A :=
  match l with
  | [] => [x]
  | y :: l' => if leb x y then x :: l else y :: insert_by leb x l'
  end.

Definition sort_by {A} (leb : A -> A -> bool) (l : list A) : list A :=
  fold_right (insert_by leb) [] l.

(** [ORDER BY video_id, start_time] *)
Definition by_video_then_start (a b : row) : bool :=
  match str_compare (video_id a) (video_id b) with
  | Lt => true
  | Gt => false
  | Eq => (start_time a <=? start_time b)%float
  end.


(** [LIMIT n]: a negative [n] means no limit. *)
Definition sql_limit {A} (n : Z) (l : list A) : list A :=
  if (n <? 0)%Z then l else firstn (Z.to_nat n) l.

(** SQLite's text functions read their arguments as C strings, up to the
    first NUL. *)
Fixpoint c_string (s : str) : str :=
  match s with
  | [] => []
  | c :: s' => if (c =? 0)%N then [] else c :: c_string s'
  end.

(** [LIKE] folds the case of ASCII letters only. *)
Definition ascii_lower (c : char) : char :=
  if ((65 <=? c) && (c <=? 90))%N then (c + 32)%N else c.

(** The [LIKE] match of a pattern against a text: [%] stands for any run
    of characters, [_] for any one character. *)
Fixpoint like (p s : str) : bool :=
  match p with
  | [] => match s with [] => true | _ :: _ => false end
  | c :: p' =>
      if (c =? 37)%N then
        (fix star (s : str) : bool :=
           like p' s
           || match s with
              | [] => false
              | _ :: s' => star s'
              end) s
      else
        match s with
        | [] => false
        | d :: s' =>
            ((c =? 95)%N || (ascii_lower c =? ascii_lower d)%N) && like p' s'
        end
  end.

(** [text LIKE pattern] *)
Definition sql_like (text pattern : str) : bool :=
  like (c_string pattern) (c_string text).

(** [LENGTH(text)] *)
Definition sql_length (text : str) : Z :=
  Z.of_nat (List.length (c_string text)).

(** The loop over [cursor.fetchall()] of both searches: the row's columns
    and the replay reference. *)
Definition search_result (r : row) : result Result.t :=
  timestamp_url <- create_timestamp_url (video_url r) (start_time r) ;;
  Ok {| Result.video_id := video_id r;
        Result.video_url := video_url r;
        Result.japanese_text := japanese_text r;
        Result.start_time := start_time r;
        Result.end_time := end_time r;
        Result.duration := duration r;
        Result.sequence_number := sequence_number r;
        Result.timestamp_url := timestamp_url |}.

Fixpoint for_each {A B} (f : A -> result B) (l : list A) : result (list B) :=
  match l with
  | [] => Ok []
  | a :: l' =>
      b <- f a ;;
      bs <- for_each f l' ;;
      Ok (b :: bs)
  end.

(** [exact_match] and [limit] are [None] when the caller leaves them to
    their defaults, [False] and [20]. *)
Definition search_word_in_subtitles (search_word : str)
    (exact_match : option bool) (limit : option Z) (t : table)
  : result (list Result.t) :=
  let limit := default 20%Z limit in
  let rows :=
    if default false exact_match then
      sql_limit limit
        (sort_by by_video_then_start
           (filter (fun r => str_eqb (japanese_text r) search_word) t))
    else
      sql_limit limit
        (sort_by by_video_then_start
           (filter (fun r =>
                      sql_like (japanese_text r)
                        (lit "%" ++ search_word ++ lit "%")) t)) in
  for_each search_result rows.

(** Python's truth value of a [float]. *)
Definition truthy_float (x : float) : bool := negb (x =? 0)%float.

(** Python's truth value of a list. *)
Definition truthy_list {A} (l : list A) : bool :=
  match l with [] => false | _ :: _ => true end.

(** [if filters.get(key):] for an entry whose truth value [truthy] gives. *)
Definition get_truthy {A} (truthy : A -> bool) (entry : option A) : option A :=
  match entry with
  | Some v => if truthy v then Some v else None
  | None => None
  end.

(** The list [conditions] that [advanced_search] builds, each condition
    with its bound parameters, as a test on a row.  An empty dictionary is
    false in [if filters:] and yields no entry either way. *)
Definition conditions (filters : option Filters.t) : list (row -> bool) :=
  match filters with
  | None => []
  | Some f =>
      match get_truthy truthy_float (Filters.min_duration f) with
      | Some m => [fun r => (m <=? duration r)%float]
      | None => []
      end
      ++ match get_truthy truthy_float (Filters.max_duration f) with
         | Some m => [fun r => (duration r <=? m)%float]
         | None => []
         end
      ++ match get_truthy truthy_list (Filters.video_ids f) with
         | Some ids => [fun r => existsb (str_eqb (video_id r)) ids]
         | None => []
         end
      ++ match get_truthy (fun b : bool => b) (Filters.exclude_short f) with
         | Some _ => [fun r => (sql_length (japanese_text r) >? 5)%Z]
         | None => []
         end
  end.

Definition advanced_search (search_term : str) (filters : option Filters.t)
    (t : table) : result (list Result.t) :=
  let conditions := conditions filters in
  let rows :=
    sql_limit 50%Z
      (sort_by by_video_then_start
         (filter (fun r =>
                    sql_like (japanese_text r)
                      (lit "%" ++ search_term ++ lit "%")
                    && forallb (fun c => c r) conditions) t)) in
  for_each search_result rows.



End Program.

(** ** Player: [extract_timestamp], [load_video] *)

Section Player.

Variable unicode_Nd : char -> bool.

(** The match of [t=(\d+)] at the head of [s]: group 1, the longest run of
    digits. *)
Definition timestamp_here (s : str) : option str :=
  match strip_prefix (lit "t=") s with
  | Some ds =>
      match count_digits unicode_Nd ds with
      | O => None
      | n => Some (firstn n ds)
      end
  | None => None
  end.

(** [re.search(r't=(\d+)', url)] followed by [match.group(1)]; [None] when
    nothing matches. *)
Fixpoint extract_timestamp (url : str) : option str :=
  match timestamp_here url with
  | Some g => Some g
  | None =>
      match url with
      | [] => None
      | _ :: url' => extract_timestamp url'
      end
  end.

(** The [embed_url] that [load_video] of the player hands to the web
    view, when there is one; [None] when it reports an invalid reference
    instead.  The player's own [extract_video_id] tries the patterns of
    the downloader's and returns [None] where that one raises. *)
Definition load_video (youtube_url : str) : option str :=
  match first_match patterns youtube_url with
  | None | Some [] => None
  | Some video_id =>
      let embed_url := lit "https://www.youtube.com/embed/" ++ video_id in
      match extract_timestamp youtube_url with
      | Some ((_ :: _) as timestamp) =>
          Some (embed_url ++ lit "?start=" ++ timestamp ++ lit "&autoplay=1")
      | _ => Some (embed_url ++ lit "?autoplay=1")
      end
  end.

End Player.

(** ** Quick search: [quick_search_and_play] *)


(** ** The list file: [load_video_urls_from_file] *)

(** A file opened in text mode reads ["\r\n"] and a lone ["\r"] as
    ["\n"]. *)
Fixpoint universal_newlines (s : str) : str :=
  match s with
  | [] => []
  | c :: s' =>
      if (c =? 13)%N then
        10%N :: match s' with
                | d :: s'' =>
                    if (d =? 10)%N then universal_newlines s''
                    else universal_newlines s'
                | [] => []
                end
      else c :: universal_newlines s'
  end.

(** [for line in f]: the lines of the text, each with its ["\n"]; the
    last one has none when the text does not end in one. *)
Fixpoint readlines (s : str) : list str :=
  match s with
  | [] => []
  | c :: s' =>
      if (c =? 10)%N then [c] :: readlines s'
      else match readlines s' with
           | [] => [[c]]
           | line :: lines => (c :: line) :: lines
           end
  end.

(** [if line and not line.startswith('#')] *)
Definition is_url_line (line : str) : bool :=
  match line with
  | [] => false
  | _ :: _ => negb (starts_with (lit "#") line)
  end.

(** The file is [None] when [open] raises [FileNotFoundError], else its
    decoded text. *)
Definition load_video_urls_from_file (f : option str) : list str :=
  match f with
  | None => []
  | Some text =>
      filter is_url_line (map strip (readlines (universal_newlines text)))
  end.

(** ** Statistics: [get_database_stats] *)

(** The values of a column without repetitions. *)
Fixpoint distinct (l : list str) : list str :=
  match l with
  | [] => []
  | x :: l' =>
      if existsb (str_eqb x) l' then distinct l' else x :: distinct l'
  end.

(** [SELECT COUNT( * ) FROM subtitles], the entry
    ['total_subtitle_entries']. *)
Definition total_subtitle_entries (t : table) : Z :=
  Z.of_nat (List.length t).

(** [SELECT COUNT(DISTINCT video_id) FROM subtitles], the entry
    ['unique_videos'].  The two entries on the total duration are sums
    of a [REAL] column and are left out. *)
Definition unique_videos (t : table) : Z :=
  Z.of_nat (List.length (distinct (map video_id t))).

(** ** Clock texts: [format_time] *)

(** [f"{n:02d}"] *)
Definition pad2 (n : Z) : str :=
  let s := decimal n in
  if (List.length s <? 2)%nat then lit "0" ++ s else s.

Definition format_time (seconds : float) : result str :=
  total_seconds <- int_of_float seconds ;;
  let hours := (total_seconds / 3600)%Z in
  let minutes := ((total_seconds mod 3600) / 60)%Z in
  let secs := (total_seconds mod 60)%Z in
  if (hours >? 0)%Z
  then Ok (pad2 hours ++ lit ":" ++ pad2 minutes ++ lit ":" ++ pad2 secs)
  else Ok (pad2 minutes ++ lit ":" ++ pad2 secs).

(** ** Sample data *)

Definition sample_url : str :=
  lit "https://www.youtube.com/watch?v=dQw4w9WgXcQ".

Definition sample_events : list event :=
  [ {| segs := Some [ {| utf8 := Some (lit "こんにちは") |} ];
       tStartMs := Some 0%Z; dDurationMs := Some 2000%Z |};
    {| segs := Some [ {| utf8 := Some (lit "   ") |} ];
       tStartMs := Some 2000%Z; dDurationMs := Some 1000%Z |};
    {| segs := Some [ {| utf8 := Some (lit "さよ") |};
                      {| utf8 := None |};
                      {| utf8 := Some (lit "うなら ") |} ];
       tStartMs := Some 5000%Z; dDurationMs := None |};
    {| segs := None; tStartMs := Some 7000%Z; dDurationMs := Some 1%Z |};
    {| segs := Some [ {| utf8 := Some (lit "time") |} ];
       tStartMs := Some 1500%Z; dDurationMs := Some 2500%Z |} ].

(** A track fetcher that knows one video. *)
Definition sample_fetcher (output_dir video_url : str) (fs : files)
  : process * files :=
  if str_eqb video_url sample_url
  then (Exited 0,
        (output_dir ++ lit "/dQw4w9WgXcQ.ja.json3", Json3 (Some sample_events))
          :: fs)
  else (Exited 1, fs).

Definition empty_world : world := {| db := []; fs := []; fetched := [] |}.

(** The second reference of the source's example list: its identifier is
    one character short. *)
Definition malformed_url : str :=
  lit "https://www.youtube.com/watch?v=example123".

(** No Unicode digit beyond ASCII. *)
Definition ascii_only : char -> bool := fun _ => false.

(** A filter dictionary with every entry present and false. *)
Definition falsy_filters : Filters.t :=
  {| Filters.min_duration := Some 0%float;
     Filters.max_duration := Some 0%float;
     Filters.video_ids := Some [];
     Filters.exclude_short := Some false |}.

Definition sample_row (vid : string) (text : string) (start : float) : row :=
  {| video_id := lit vid;
     video_url := lit "https://youtu.be/" ++ lit vid;
     japanese_text := lit text;
     start_time := start;
     end_time := (start + 2)%float;
     duration := 2%float;
     sequence_number := 0 |}.

(** Rows of two videos, interleaved in insertion order. *)
Definition sample_table : table :=
  [ sample_row "bbbbbbbbbbb" "neko desu" 100;
    sample_row "aaaaaaaaaaa" "neko da" 95.5;
    sample_row "bbbbbbbbbbb" "inu to neko" 89.9;
    sample_row "aaaaaaaaaaa" "neko" 90;
    sample_row "bbbbbbbbbbb" "neko neko" 110;
    sample_row "aaaaaaaaaaa" "tori" 100.5 ].

(** The subtitle directory after the track fetcher has run on the sample
    reference. *)
Definition fetched_world : world :=
  {| db := [];
     fs := snd (sample_fetcher (lit "subtitles") sample_url []);
     fetched := [sample_url] |}.

(** The lines of the example list file that [main] writes. *)
Definition example_urls : list str :=
  [ lit "# Add your YouTube video URLs here (one per line)";
    lit "# Lines starting with # are ignored";
    sample_url;
    malformed_url ].

(** A filter dictionary with two entries in force. *)
Definition sample_filters : Filters.t :=
  {| Filters.min_duration := Some 1%float;
     Filters.max_duration := None;
     Filters.video_ids := Some [lit "aaaaaaaaaaa"];
     Filters.exclude_short := None |}.

(** The report of a batch, or the empty report when the batch raised. *)
Definition report_of (run : result Report.t * world) : Report.t :=
  match fst run with
  | Ok report => report
  | Raise _ => empty_report
  end.

(** A track whose second event starts beyond the range of [float]. *)
Definition overflowing_events : list event :=
  [ {| segs := Some [ {| utf8 := Some (lit "ok") |} ];
       tStartMs := Some 0%Z; dDurationMs := Some 1000%Z |};
    {| segs := Some [ {| utf8 := Some (lit "late") |} ];
       tStartMs := Some (10 ^ 400)%Z; dDurationMs := None |} ].

Definition broken_world : world :=
  {| db := [];
     fs := [ (lit "subtitles/dQw4w9WgXcQ.ja.json3",
              Json3 (Some overflowing_events)) ];
     fetched := [sample_url] |}.


(** ** Vocabulary of the statements *)

(** The decimal value of the leading ASCII digits of [s], after [acc]. *)
Fixpoint digits_value (acc : Z) (s : str) : Z :=
  match s with
  | c :: s' =>
      if is_ascii_digit c
      then digits_value (10 * acc + Z.of_N (c - 48)) s'
      else acc
  | [] => acc
  end.

(** The values of the time markers a reference carries: each place where
    [?], [&] or [#] is followed by [t=] and ASCII digits. *)
Fixpoint time_markers (s : str) : list Z :=
  match s with
  | [] => []
  | c :: s' =>
      if (is_amp_or_hash c || (c =? 63)%N)
      then match strip_prefix (lit "t=") s' with
           | Some (d :: ds) =>
               if is_ascii_digit d
               then digits_value 0 (d :: ds) :: time_markers s'
               else time_markers s'
           | _ => time_markers s'
           end
      else time_markers s'
  end.

(** The uniqueness constraint as a property of a table: no two rows, at
    different places, have the same key. *)
Definition unique_keys (t : table) : Prop :=
  ForallOrdPairs (fun a b => same_key a b = false) t.

(** The number of stored rows with the key of [r]. *)
Definition key_count (t : table) (r : row) : nat :=
  List.length (filter (same_key r) t).

(** A sequence of inserts, one after the other. *)
Definition insert_all (rs : list row) (t : table) : table :=
  fold_left (fun t r => fst (insert_or_ignore t r)) rs t.

(** The rows [insert_events] binds to its [INSERT] statements, in order. *)
Fixpoint candidates (video_id video_url : str) (i : Z) (events : list event)
  : result (list row) :=
  match events with
  | [] => Ok []
  | ev :: rest =>
      values <- event_row video_id video_url i ev ;;
      rows <- candidates video_id video_url (i + 1) rest ;;
      Ok (match values with Some r => r :: rows | None => rows end)
  end.

(** The inserts of [insert_events] for a list of bound rows, with the
    running count of new rows. *)
Definition store_rows (rows : list row) (t : table) (inserted_count : Z)
  : table * Z :=
  fold_left
    (fun (acc : table * Z) r =>
       let (t', rowcount) := insert_or_ignore (fst acc) r in
       (t', if (rowcount >? 0)%Z then snd acc + 1 else snd acc)%Z)
    rows (t, inserted_count).

(** Both offsets of an event convert to [float]. *)
Definition offsets_convert (ev : event) : Prop :=
  exists s d,
    float_of_int (default 0%Z (tStartMs ev)) = Ok s
    /\ float_of_int (default 0%Z (dDurationMs ev)) = Ok d.






(** An entry of the filter dictionary that is missing or false. *)
Definition falsy_entry {A} (truthy : A -> bool) (entry : option A) : Prop :=
  match entry with
  | Some v => truthy v = false
  | None => True
  end.

(** The number of outcomes whose status satisfies [p]. *)
Definition count_status (p : status -> bool) (os : list Outcome.t) : Z :=
  Z.of_nat (List.length (filter (fun o => p (Outcome.status o)) os)).

Definition is_success (s : status) : bool :=
  match s with success => true | _ => false end.
Definition is_failure (s : status) : bool :=
  match s with failed | error => true | _ => false end.
Definition is_skipped (s : status) : bool :=
  match s with skipped => true | _ => false end.
Definition is_no_subtitles (s : status) : bool :=
  match s with no_subtitles => true | _ => false end.

(** The outcome the [except] clause of [process_single_video] builds. *)
Definition error_outcome (video_url : str) (e : exn) : Outcome.t :=
  {| Outcome.video_id := lit "unknown";
     Outcome.url := video_url;
     Outcome.status := error;
     Outcome.error := Some (exn_message e);
     Outcome.subtitle_count := 0 |}.

(** A caption as the normalizer stores it: a text that is not empty and
    has no white space at either end, times that are numbers, and an end
    time that is the sum of start time and duration. *)
Definition caption_ok (r : row) : Prop :=
  japanese_text r <> []
  /\ strip (japanese_text r) = japanese_text r
  /\ not_null r = true
  /\ end_time r = (start_time r + duration r)%float.

(** The video of a reference has rows in the table. *)
Definition ingested (t : table) (video_url : str) : Prop :=
  exists vid,
    extract_video_id video_url = Ok vid /\ (0 < count_video t vid)%Z.

(** What one call of [process_single_video] does to the world, case by
    case: the reference does not parse, the video has rows, the track
    fetcher fails, or a track is parsed and [added] is appended. *)
Inductive call_result (url : str) (w : world)
  : Outcome.t -> world -> Prop :=
| call_error e :
    extract_video_id url = Raise e ->
    call_result url w (error_outcome url e) w
| call_skipped vid o :
    extract_video_id url = Ok vid ->
    (0 < count_video (db w) vid)%Z ->
    Outcome.video_id o = vid -> Outcome.url o = url ->
    Outcome.status o = skipped -> Outcome.error o = None ->
    Outcome.subtitle_count o = count_video (db w) vid ->
    call_result url w o w
| call_failed vid o w' :
    extract_video_id url = Ok vid ->
    count_video (db w) vid = 0%Z ->
    Outcome.video_id o = vid -> Outcome.url o = url ->
    Outcome.status o = failed -> Outcome.error o = None ->
    Outcome.subtitle_count o = 0%Z ->
    db w' = db w -> fetched w' = fetched w ++ [url] ->
    call_result url w o w'
| call_parsed vid o w' added :
    extract_video_id url = Ok vid ->
    count_video (db w) vid = 0%Z ->
    Outcome.video_id o = vid -> Outcome.url o = url ->
    Outcome.status o
    = (match added with [] => no_subtitles | _ :: _ => success end) ->
    Outcome.error o = None ->
    Outcome.subtitle_count o = Z.of_nat (List.length added) ->
    db w' = db w ++ added ->
    Forall (fun r => video_id r = vid /\ video_url r = url
                     /\ caption_ok r) added ->
    fetched w' = fetched w ++ [url] ->
    call_result url w o w'.

(** The table of [w'] is the table of [w] with rows added at its end. *)
Definition grows (w w' : world) : Prop :=
  exists added, db w' = db w ++ added.

(** The videos the references of a batch name, one entry per reference
    that parses. *)
Definition batch_ids (video_urls : list str) : list str :=
  flat_map (fun u => match extract_video_id u with
                     | Ok vid => [vid]
                     | Raise _ => []
                     end) video_urls.

Definition sum_Z (l : list Z) : Z := fold_right Z.add 0%Z l.

(** What [process_video_list] adds to ['total_subtitles'] for one
    outcome. *)
Definition counted (o : Outcome.t) : Z :=
  match Outcome.status o with
  | success | skipped => Outcome.subtitle_count o
  | _ => 0%Z
  end.

(** The [INSERT OR IGNORE] of row [r] leaves table [t] as it is. *)
Definition ignored (t : table) (r : row) : Prop :=
  not_null r = false \/ existsb (fun a => same_key a r) t = true.

(** A character other than an identifier character among the first [n]
    characters of [s]. *)
Fixpoint has_non_id (n : nat) (s : str) : bool :=
  match n, s with
  | S n', c :: s' => negb (is_id_char c) || has_non_id n' s'
  | _, _ => false
  end.

(** The first pattern cannot match at the head of [tl ++ s], whatever
    [s] is. *)
Definition inert_here (tl : str) : bool :=
  match tl with
  | [] => true
  | c :: tl' =>
      if (c =? 47)%N then has_non_id 11 tl'
      else if (c =? 118)%N then
        match tl' with
        | [] => false
        | d :: tl'' => if (d =? 61)%N then has_non_id 11 tl'' else true
        end
      else true
  end.

(** The first pattern cannot match at a position of [pre] in
    [pre ++ sep ++ s], whatever [s] is. *)
Fixpoint inert (pre sep : str) : bool :=
  match pre with
  | [] => true
  | _ :: pre' => inert_here (pre ++ sep) && inert pre' sep
  end.

(** An identifier: eleven characters of the class. *)
Definition is_video_id (g : str) : Prop :=
  List.length g = 11%nat /\ forallb is_id_char g = true.

(** The code points of the digits of [d]. *)
Fixpoint digit_codes (d : Decimal.uint) : str :=
  match d with
  | Decimal.Nil => []
  | Decimal.D0 d' => 48%N :: digit_codes d'
  | Decimal.D1 d' => 49%N :: digit_codes d'
  | Decimal.D2 d' => 50%N :: digit_codes d'
  | Decimal.D3 d' => 51%N :: digit_codes d'
  | Decimal.D4 d' => 52%N :: digit_codes d'
  | Decimal.D5 d' => 53%N :: digit_codes d'
  | Decimal.D6 d' => 54%N :: digit_codes d'
  | Decimal.D7 d' => 55%N :: digit_codes d'
  | Decimal.D8 d' => 56%N :: digit_codes d'
  | Decimal.D9 d' => 57%N :: digit_codes d'
  end.

(** The stored row that a search result shows. *)
Definition row_of (res : Result.t) : row :=
  {| video_id := Result.video_id res;
     video_url := Result.video_url res;
     japanese_text := Result.japanese_text res;
     start_time := Result.start_time res;
     end_time := Result.end_time res;
     duration := Result.duration res;
     sequence_number := Result.sequence_number res |}.

(** No NUL character. *)
Definition nul_free (s : str) : Prop := ~ In 0%N s.

(** Neither [%] nor [_]: the word has no [LIKE] wildcard. *)
Definition plain (word : str) : Prop := ~ In 37%N word /\ ~ In 95%N word.

(** A part of [text] is [word], up to the case of ASCII letters. *)
Definition occurs_in (word text : str) : Prop :=
  exists pre mid post,
    text = pre ++ mid ++ post /\ map ascii_lower mid = map ascii_lower word.

(** SQLite refuses a [LIKE] pattern of more than 50000 bytes; a code
    point takes at most four, and the search adds two [%]. *)
Definition within_like_limit (word : str) : Prop :=
  (4 * Z.of_nat (List.length word) + 2 <= 50000)%Z.

(** The limit did not cut the list of results. *)
Definition not_cut {A} (limit : Z) (rs : list A) : Prop :=
  (limit < 0)%Z \/ (Z.of_nat (List.length rs) < limit)%Z.

(** ['\n'.join(lines)] *)
Fixpoint join_lines (lines : list str) : str :=
  match lines with
  | [] => []
  | [line] => line
  | line :: rest => line ++ 10%N :: join_lines rest
  end.

(** No line break inside. *)
Definition one_line (s : str) : Prop := ~ In 10%N s /\ ~ In 13%N s.


(** The seconds a clock text stands for: its fields of decimal digits,
    separated by [:], read in base 60.  [acc] is the value of the fields
    read so far, [field] that of the digits of the current one. *)
Fixpoint clock_value (acc field : Z) (s : str) : Z :=
  match s with
  | [] => 60 * acc + field
  | c :: s' =>
      if (c =? 58)%N then clock_value (60 * acc + field) 0 s'
      else clock_value acc (10 * field + Z.of_N (c - 48)) s'
  end.

(** * Proofs *)

(** ** Order of binary64 numbers *)

Lemma SFcompare_antisym (x y : spec_float) :
  SFcompare y x = option_map CompOpp (SFcompare x y).
Proof.
  destruct x as [sx|sx| |sx mx ex], y as [sy|sy| |sy my ey];
    try destruct sx; try destruct sy; try reflexivity; simpl;
    rewrite (Z.compare_antisym ex ey);
    destruct (ex ?= ey)%Z; simpl; try reflexivity;
    change (Pos.compare_cont Eq my mx) with (my ?= mx)%positive;
    change (Pos.compare_cont Eq mx my) with (mx ?= my)%positive;
    rewrite (Pos.compare_antisym mx my); reflexivity.
Qed.

Ltac sf_cases :=
  repeat match goal with
  | |- context [(?a ?= ?b)%Z] => destruct (Z.compare_spec a b)
  | H : context [(?a ?= ?b)%Z] |- _ => destruct (Z.compare_spec a b)
  | |- context [(?a ?= ?b)%positive] => destruct (Pos.compare_spec a b)
  | H : context [(?a ?= ?b)%positive] |- _ => destruct (Pos.compare_spec a b)
  end.




Lemma SFeqb_sym (x y : spec_float) : SFeqb x y = SFeqb y x.
Proof.
  unfold SFeqb. rewrite (SFcompare_antisym y x).
  destruct (SFcompare y x) as [[]|]; reflexivity.
Qed.

Lemma SFeqb_trans (x y z : spec_float) :
  SFeqb x y = true -> SFeqb y z = true -> SFeqb x z = true.
Proof.
  unfold SFeqb.
  destruct x as [sx|sx| |sx mx ex], y as [sy|sy| |sy my ey],
    z as [sz|sz| |sz mz ez];
    try destruct sx; try destruct sy; try destruct sz; simpl;
    try reflexivity; try discriminate;
    change (Pos.compare_cont Eq mx my) with (mx ?= my)%positive;
    change (Pos.compare_cont Eq my mz) with (my ?= mz)%positive;
    change (Pos.compare_cont Eq mx mz) with (mx ?= mz)%positive;
    intros H1 H2; sf_cases; simpl in *;
    try reflexivity; try discriminate; lia.
Qed.

Lemma SFleb_not_nan_l (x y : spec_float) : SFleb x y = true -> SFeqb x x = true.
Proof.
  unfold SFleb, SFeqb.
  destruct x as [sx|sx| |sx mx ex], y as [sy|sy| |sy my ey];
    try destruct sx; try destruct sy; simpl; try reflexivity; try discriminate;
    intros _; rewrite Z.compare_refl;
    change (Pos.compare_cont Eq mx mx) with (mx ?= mx)%positive;
    rewrite Pos.compare_refl; reflexivity.
Qed.


Local Open Scope float_scope.



Lemma float_eqb_sym (x y : float) : (x =? y) = (y =? x).
Proof. rewrite !eqb_spec. apply SFeqb_sym. Qed.

Lemma float_eqb_trans (x y z : float) :
  (x =? y) = true -> (y =? z) = true -> (x =? z) = true.
Proof. rewrite !eqb_spec. apply SFeqb_trans. Qed.

Lemma float_eqb_refl (x : float) : is_nan x = false -> (x =? x) = true.
Proof. unfold is_nan. now rewrite negb_false_iff. Qed.

Lemma float_leb_not_nan_l (x y : float) : (x <=? y) = true -> is_nan x = false.
Proof.
  unfold is_nan. rewrite negb_false_iff, leb_spec, eqb_spec.
  apply SFleb_not_nan_l.
Qed.


Local Close Scope float_scope.

(** ** Facts on strings *)

Lemma str_eqb_eq (a b : str) : str_eqb a b = true <-> a = b.
Proof.
  revert b. induction a as [|x a IH]; intros [|y b]; simpl;
    try (split; [discriminate | congruence]); try tauto.
  rewrite andb_true_iff, N.eqb_eq, IH. split.
  - intros [-> ->]. reflexivity.
  - intros E. injection E. tauto.
Qed.

Lemma str_eqb_refl (a : str) : str_eqb a a = true.
Proof. now apply str_eqb_eq. Qed.




(** ** Facts on sorting *)

Section Sorting.
Context {A : Type}.
Variable leb : A -> A -> bool.
Variable P : A -> Prop.
Hypothesis leb_total_on :
  forall x y, P x -> P y -> leb x y = false -> leb y x = true.
Hypothesis leb_transitive :
  forall x y z, leb x y = true -> leb y z = true -> leb x z = true.

Lemma insert_by_perm (x : A) (l : list A) :
  Permutation (insert_by leb x l) (x :: l).
Proof.
  induction l as [|y l IH]; simpl; [reflexivity|].
  destruct (leb x y); [reflexivity|].
  rewrite IH. apply perm_swap.
Qed.

Lemma sort_by_perm (l : list A) : Permutation (sort_by leb l) l.
Proof.
  induction l as [|x l IH]; simpl; [reflexivity|].
  unfold sort_by in IH. rewrite insert_by_perm. now constructor.
Qed.



End Sorting.

Lemma In_firstn {A} (n : nat) (l : list A) (x : A) :
  In x (firstn n l) -> In x l.
Proof.
  intros H. rewrite <- (firstn_skipn n l). apply in_or_app. now left.
Qed.


(** ** Replay Reference Builder *)

(** C1.  The builder applied to its own output does not always leave one
    time marker.  On a reference without a query component the first call
    appends [?t=30s]; the second call strips markers that follow [&] or
    [#] only, so the old marker stays and the result carries two, [30]
    and [45].  On a watch-page reference the old marker follows [&] and
    is removed up to its digits: its [s] suffix is left behind, glued to
    the video identifier. *)
Theorem create_timestamp_url_reapplied (unicode_Nd : char -> bool) :
  create_timestamp_url unicode_Nd (lit "https://youtu.be/dQw4w9WgXcQ") 30%float
  = Ok (lit "https://youtu.be/dQw4w9WgXcQ?t=30s")
  /\ create_timestamp_url unicode_Nd
       (lit "https://youtu.be/dQw4w9WgXcQ?t=30s") 45%float
     = Ok (lit "https://youtu.be/dQw4w9WgXcQ?t=30s&t=45s")
  /\ time_markers (lit "https://youtu.be/dQw4w9WgXcQ?t=30s&t=45s")
     = [30%Z; 45%Z]
  /\ create_timestamp_url unicode_Nd
       (lit "https://www.youtube.com/watch?v=dQw4w9WgXcQ&t=30s") 45%float
     = Ok (lit "https://www.youtube.com/watch?v=dQw4w9WgXcQs&t=45s").
Proof.
  split; [vm_compute; reflexivity|].
  split; [vm_compute; reflexivity|].
  split; vm_compute; reflexivity.
Qed.

(** ** Reference Parser and Ingestion Coordinator *)

Lemma first_match_none (ps : list pattern) (url : str) :
  Forall (fun p => re_search p url = None) ps -> first_match ps url = None.
Proof.
  induction 1 as [|p ps Hp _ IH]; simpl; [reflexivity|].
  now rewrite Hp.
Qed.

Lemma tally_failure (results : Report.t) (o : Outcome.t) :
  is_failure (Outcome.status o) = true ->
  Report.failed (tally results o) = (Report.failed results + 1)%Z
  /\ Report.success (tally results o) = Report.success results
  /\ Report.skipped (tally results o) = Report.skipped results
  /\ Report.no_subtitles (tally results o) = Report.no_subtitles results.
Proof.
  unfold tally. destruct (Outcome.status o); simpl; try discriminate; auto.
Qed.

(** C2.  A reference on which no pattern finds an identifier makes
    [extract_video_id] raise [ValueError]; [process_single_video] then
    returns an outcome, with status [error] and the exception's message in
    its [error] entry, and leaves the store, the directory and the fetch
    log as they were.  [process_video_list] counts that status under
    [failed] and under no other counter. *)
Theorem unparsable_reference_outcome (yt_dlp : fetcher)
    (video_url : str) (w : world) :
  Forall (fun p => re_search p video_url = None) patterns ->
  extract_video_id video_url
  = Raise (ValueError
             (lit "Could not extract video ID from URL: " ++ video_url))
  /\ process_single_video yt_dlp video_url w
     = ({| Outcome.video_id := lit "unknown";
           Outcome.url := video_url;
           Outcome.status := error;
           Outcome.error :=
             Some (lit "Could not extract video ID from URL: " ++ video_url);
           Outcome.subtitle_count := 0 |}, w)
  /\ forall results,
       let o := fst (process_single_video yt_dlp video_url w) in
       Report.failed (tally results o) = (Report.failed results + 1)%Z
       /\ Report.success (tally results o) = Report.success results
       /\ Report.skipped (tally results o) = Report.skipped results
       /\ Report.no_subtitles (tally results o) = Report.no_subtitles results.
Proof.
  intros H.
  assert (E : extract_video_id video_url
              = Raise (ValueError
                         (lit "Could not extract video ID from URL: "
                            ++ video_url))).
  { unfold extract_video_id. now rewrite (first_match_none _ _ H). }
  assert (P : process_single_video yt_dlp video_url w
              = ({| Outcome.video_id := lit "unknown";
                    Outcome.url := video_url;
                    Outcome.status := error;
                    Outcome.error :=
                      Some (lit "Could not extract video ID from URL: "
                              ++ video_url);
                    Outcome.subtitle_count := 0 |}, w)).
  { unfold process_single_video, process_single_video_try.
    rewrite E. reflexivity. }
  split; [exact E|]. split; [exact P|].
  intros results o. apply tally_failure. subst o. rewrite P. reflexivity.
Qed.


(** ** Batch Scheduler *)

Lemma process_single_video_url (yt_dlp : fetcher)
    (video_url : str) (w : world) :
  Outcome.url (fst (process_single_video yt_dlp video_url w)) = video_url.
Proof.
  unfold process_single_video, process_single_video_try.
  destruct (extract_video_id video_url) as [vid|e]; [|reflexivity].
  destruct (_ >? _)%Z; [reflexivity|].
  destruct (download_subtitle yt_dlp _ _ _) as [[ok rid] w1].
  destruct ok; [|reflexivity].
  destruct (parse_subtitle_file _ _ _ _) as [n w2]. reflexivity.
Qed.

Lemma run_workers_urls (yt_dlp : fetcher)
    (video_urls : list str) (w : world) :
  map Outcome.url (fst (run_workers yt_dlp video_urls w)) = video_urls.
Proof.
  revert w. induction video_urls as [|url rest IH]; intros w; simpl.
  - reflexivity.
  - pose proof (process_single_video_url yt_dlp url w) as U.
    destruct (process_single_video yt_dlp url w) as [o w1].
    specialize (IH w1). destruct (run_workers yt_dlp rest w1) as [os w2].
    simpl in *. now rewrite U, IH.
Qed.

Lemma count_status_cons (p : status -> bool) (o : Outcome.t)
    (os : list Outcome.t) :
  count_status p (o :: os)
  = ((if p (Outcome.status o) then 1 else 0) + count_status p os)%Z.
Proof.
  unfold count_status. cbn [filter].
  destruct (p (Outcome.status o)); cbn [List.length];
    rewrite ?Nat2Z.inj_succ; lia.
Qed.

Lemma fold_tally (outcomes : list Outcome.t) (results : Report.t) :
  let report := fold_left tally outcomes results in
  Report.success report
  = (Report.success results + count_status is_success outcomes)%Z
  /\ Report.failed report
     = (Report.failed results + count_status is_failure outcomes)%Z
  /\ Report.skipped report
     = (Report.skipped results + count_status is_skipped outcomes)%Z
  /\ Report.no_subtitles report
     = (Report.no_subtitles results
        + count_status is_no_subtitles outcomes)%Z
  /\ Report.details report = Report.details results ++ outcomes.
Proof.
  revert results. induction outcomes as [|o os IH]; intros results; simpl.
  - unfold count_status. simpl. rewrite app_nil_r.
    repeat split; try lia.
  - destruct (IH (tally results o)) as (H1 & H2 & H3 & H4 & H5).
    rewrite H1, H2, H3, H4, H5, !count_status_cons.
    unfold tally. destruct (Outcome.status o); cbn -[Z.add count_status];
      rewrite <- ?app_assoc; repeat split; try lia.
Qed.

Lemma count_status_partition (os : list Outcome.t) :
  (count_status is_success os + count_status is_failure os
   + count_status is_skipped os + count_status is_no_subtitles os)%Z
  = Z.of_nat (List.length os).
Proof.
  induction os as [|o os IH]; [reflexivity|].
  rewrite !count_status_cons. cbn [List.length].
  rewrite Nat2Z.inj_succ.
  destruct (Outcome.status o); cbn -[Z.add count_status Z.of_nat]; lia.
Qed.

(** C8.  With a positive pool width, [process_video_list] returns a
    report for every list of references, whatever the outcomes are.  The
    detail list holds one outcome per submitted reference, each counter is
    the number of details in its class of statuses, the four classes
    leave no status out and share none, and the four counters add up to
    the number of references. *)
Theorem batch_always_reports (yt_dlp : fetcher)
    (schedule : list str -> list str) (video_urls : list str)
    (max_workers : option Z) (w : world) :
  (0 < default 3 max_workers)%Z ->
  Permutation (schedule video_urls) video_urls ->
  exists report w',
    process_video_list yt_dlp schedule video_urls max_workers w
    = (Ok report, w')
    /\ (Report.success report + Report.failed report
        + Report.skipped report + Report.no_subtitles report)%Z
       = Z.of_nat (List.length video_urls)
    /\ Permutation (map Outcome.url (Report.details report)) video_urls
    /\ Report.success report
       = count_status is_success (Report.details report)
    /\ Report.failed report
       = count_status is_failure (Report.details report)
    /\ Report.skipped report
       = count_status is_skipped (Report.details report)
    /\ Report.no_subtitles report
       = count_status is_no_subtitles (Report.details report)
    /\ forall s,
         (if is_success s then 1 else 0) + (if is_failure s then 1 else 0)
         + (if is_skipped s then 1 else 0)
         + (if is_no_subtitles s then 1 else 0) = 1.
Proof.
  intros Hw Hs. unfold process_video_list.
  destruct (_ <=? 0)%Z eqn:E; [lia|].
  pose proof (run_workers_urls yt_dlp (schedule video_urls) w) as U.
  destruct (run_workers yt_dlp (schedule video_urls) w) as [outcomes w'].
  simpl in U. exists (fold_left tally outcomes empty_report), w'.
  destruct (fold_tally outcomes empty_report) as (H1 & H2 & H3 & H4 & H5).
  simpl in H1, H2, H3, H4, H5.
  split; [reflexivity|].
  rewrite H1, H2, H3, H4, H5.
  assert (L : List.length outcomes = List.length video_urls).
  { rewrite <- (Permutation_length Hs), <- U. now rewrite length_map. }
  split; [rewrite count_status_partition; now rewrite L|].
  split; [now rewrite U|].
  repeat (split; [reflexivity|]).
  intros []; reflexivity.
Qed.

(** ** Record Store *)

Lemma str_eqb_sym (a b : str) : str_eqb a b = str_eqb b a.
Proof.
  revert b. induction a as [|x a IH]; intros [|y b]; simpl; try reflexivity.
  now rewrite N.eqb_sym, IH.
Qed.

Lemma str_eqb_trans (a b c : str) :
  str_eqb a b = true -> str_eqb b c = true -> str_eqb a c = true.
Proof. rewrite !str_eqb_eq. congruence. Qed.

Lemma same_key_sym (a b : row) : same_key a b = same_key b a.
Proof.
  unfold same_key.
  now rewrite (str_eqb_sym (video_id a)), (float_eqb_sym (start_time a)),
    (str_eqb_sym (japanese_text a)).
Qed.

Lemma same_key_trans (a b c : row) :
  same_key a b = true -> same_key b c = true -> same_key a c = true.
Proof.
  unfold same_key. rewrite !andb_true_iff.
  intros [[V1 S1] T1] [[V2 S2] T2].
  repeat split;
    [ exact (str_eqb_trans _ _ _ V1 V2)
    | exact (float_eqb_trans _ _ _ S1 S2)
    | exact (str_eqb_trans _ _ _ T1 T2) ].
Qed.

Lemma same_key_refl (r : row) : not_null r = true -> same_key r r = true.
Proof.
  unfold not_null, same_key. rewrite !andb_true_iff, !negb_true_iff.
  intros [[S _] _]. now rewrite !str_eqb_refl, (float_eqb_refl _ S).
Qed.

(** Rows with the same three columns have the same key. *)
Lemma same_key_columns (a r1 r2 : row) :
  video_id r2 = video_id r1 -> start_time r2 = start_time r1 ->
  japanese_text r2 = japanese_text r1 ->
  same_key a r2 = same_key a r1.
Proof. unfold same_key. now intros -> -> ->. Qed.

Lemma conflict_columns (t : table) (r1 r2 : row) :
  video_id r2 = video_id r1 -> start_time r2 = start_time r1 ->
  japanese_text r2 = japanese_text r1 ->
  existsb (fun a => same_key a r2) t = existsb (fun a => same_key a r1) t.
Proof.
  intros V S T. induction t as [|a t IH]; simpl; [reflexivity|].
  now rewrite IH, (same_key_columns a r1 r2 V S T).
Qed.

Lemma unique_keys_snoc (t : table) (r : row) :
  unique_keys t ->
  existsb (fun a => same_key a r) t = false ->
  unique_keys (t ++ [r]).
Proof.
  unfold unique_keys. induction 1 as [|a t Ha Ht IH]; simpl; intros E.
  - repeat constructor.
  - apply orb_false_iff in E as [E1 E2]. constructor; [|now apply IH].
    apply Forall_app. split; [assumption|]. now repeat constructor.
Qed.

Lemma insert_or_ignore_unique (t : table) (r : row) :
  unique_keys t -> unique_keys (fst (insert_or_ignore t r)).
Proof.
  intros H. unfold insert_or_ignore.
  destruct (not_null r); simpl; [|assumption].
  destruct (existsb _ t) eqn:E; simpl; [assumption|].
  now apply unique_keys_snoc.
Qed.

Lemma insert_all_unique (rs : list row) (t : table) :
  unique_keys t -> unique_keys (insert_all rs t).
Proof.
  revert t. induction rs as [|r rs IH]; intros t H; simpl; [assumption|].
  apply IH. now apply insert_or_ignore_unique.
Qed.

Lemma key_count_zero (t : table) (r : row) :
  existsb (fun a => same_key a r) t = false -> key_count t r = 0.
Proof.
  unfold key_count. induction t as [|a t IH]; simpl; [reflexivity|].
  intros E. apply orb_false_iff in E as [E1 E2].
  rewrite same_key_sym, E1. now apply IH.
Qed.

Lemma key_count_unique (t : table) (r : row) :
  unique_keys t ->
  existsb (fun a => same_key a r) t = true -> key_count t r = 1.
Proof.
  unfold unique_keys, key_count.
  induction 1 as [|a t Ha Ht IH]; simpl; [discriminate|].
  destruct (same_key a r) eqn:E; simpl.
  - intros _. rewrite same_key_sym, E. simpl. f_equal.
    apply key_count_zero.
    apply not_true_is_false. intros X. apply existsb_exists in X.
    destruct X as (b & Hb & Kb). rewrite Forall_forall in Ha.
    specialize (Ha b Hb).
    rewrite (same_key_trans a r b E) in Ha; [discriminate|].
    now rewrite same_key_sym.
  - intros X. rewrite same_key_sym, E. now apply IH.
Qed.

Lemma key_count_snoc (t : table) (r : row) :
  key_count (t ++ [r]) r
  = key_count t r + (if same_key r r then 1 else 0).
Proof.
  unfold key_count. rewrite filter_app, length_app. simpl.
  destruct (same_key r r); reflexivity.
Qed.

(** C3.  The table keeps its uniqueness constraint through every
    sequence of inserts, from the empty table and from any table that
    satisfies it.  When a row that can be stored is inserted and then a
    second row with the same video, start time and text, the second
    insert leaves the table as it is and reports [rowcount = 0], and the
    table holds one row with that key. *)
Theorem subtitles_key_unique :
  (forall rs, unique_keys (insert_all rs []))
  /\ (forall t rs, unique_keys t -> unique_keys (insert_all rs t))
  /\ (forall t r1 r2,
        unique_keys t -> not_null r1 = true ->
        video_id r2 = video_id r1 -> start_time r2 = start_time r1 ->
        japanese_text r2 = japanese_text r1 ->
        let t1 := fst (insert_or_ignore t r1) in
        insert_or_ignore t1 r2 = (t1, 0%Z) /\ key_count t1 r1 = 1).
Proof.
  split; [intros rs; apply insert_all_unique; constructor|].
  split; [intros t rs; apply insert_all_unique|].
  intros t r1 r2 U N V S T t1. subst t1.
  assert (E1 : fst (insert_or_ignore t r1)
               = if existsb (fun a => same_key a r1) t
                 then t else t ++ [r1]).
  { unfold insert_or_ignore. rewrite N. simpl.
    now destruct (existsb _ t). }
  rewrite E1. clear E1.
  destruct (existsb (fun a => same_key a r1) t) eqn:E.
  - split; [|now apply key_count_unique].
    unfold insert_or_ignore.
    rewrite (conflict_columns t r1 r2 V S T), E.
    now rewrite andb_false_r.
  - split.
    + unfold insert_or_ignore.
      rewrite (conflict_columns _ r1 r2 V S T).
      rewrite existsb_app. simpl. rewrite (same_key_refl r1 N).
      now rewrite !orb_true_r, andb_false_r.
    + rewrite key_count_snoc, (key_count_zero _ _ E), (same_key_refl r1 N).
      reflexivity.
Qed.

(** ** Track Normalizer *)

Lemma event_row_inv (vid url : str) (i : Z) (ev : event) (r : row) :
  event_row vid url i ev = Ok (Some r) <->
  exists text s d,
    event_text ev = Some text /\ text <> []
    /\ float_of_int (default 0%Z (tStartMs ev)) = Ok s
    /\ float_of_int (default 0%Z (dDurationMs ev)) = Ok d
    /\ r = {| video_id := vid;
              video_url := url;
              japanese_text := text;
              start_time := (s / 1000)%float;
              end_time := (s / 1000 + d / 1000)%float;
              duration := (d / 1000)%float;
              sequence_number := i |}.
Proof.
  unfold event_row, ms_to_seconds. split.
  - destruct (event_text ev) as [[|c text]|]; try discriminate.
    destruct (float_of_int (default 0%Z (tStartMs ev))) as [s|]; simpl;
      [|discriminate].
    destruct (float_of_int (default 0%Z (dDurationMs ev))) as [d|]; simpl;
      [|discriminate].
    intros E. injection E as <-. exists (c :: text), s, d.
    repeat split; auto. discriminate.
  - intros (text & s & d & -> & N & -> & -> & ->).
    destruct text; [contradiction|]. reflexivity.
Qed.





Lemma insert_events_candidates (vid url : str) (events : list event) :
  forall i t n,
    insert_events vid url i events t n
    = (rows <- candidates vid url i events ;; Ok (store_rows rows t n)).
Proof.
  induction events as [|ev rest IH]; intros i t n; simpl; [reflexivity|].
  destruct (event_row vid url i ev) as [[r|]|e]; simpl; try reflexivity.
  - unfold store_rows. destruct (insert_or_ignore t r) as [t' rc] eqn:E.
    rewrite IH. destruct (candidates vid url (i + 1) rest); simpl;
      [|reflexivity].
    unfold store_rows. simpl. now rewrite E.
  - rewrite IH. now destruct (candidates vid url (i + 1) rest).
Qed.


Lemma candidates_in (vid url : str) (events : list event) :
  forall i rows,
    candidates vid url i events = Ok rows ->
    forall r,
      In r rows <->
      exists k ev,
        nth_error events k = Some ev
        /\ event_row vid url (i + Z.of_nat k) ev = Ok (Some r).
Proof.
  induction events as [|ev rest IH]; intros i rows; simpl.
  - intros E. injection E as <-. intros r. split; [contradiction|].
    intros ([|k] & ev & N & _); discriminate.
  - destruct (event_row vid url i ev) as [v|] eqn:V; simpl; [|discriminate].
    destruct (candidates vid url (i + 1) rest) as [rows'|] eqn:C; simpl;
      [|discriminate].
    intros E. injection E as <-. intros r.
    specialize (IH _ _ C r).
    assert (Shift : forall k, (i + 1 + Z.of_nat k = i + Z.of_nat (S k))%Z)
      by (intros; lia).
    split.
    + intros H.
      assert (H' : v = Some r \/ In r rows').
      { destruct v; [destruct H as [->|H]|]; auto. }
      destruct H' as [->|H'].
      * exists 0, ev. rewrite Z.add_0_r. auto.
      * apply IH in H' as (k & ev' & N & R). exists (S k), ev'.
        rewrite <- Shift. auto.
    + intros ([|k] & ev' & N & R); simpl in N.
      * injection N as <-. rewrite Z.add_0_r, V in R.
        injection R as ->. now left.
      * rewrite <- Shift in R.
        assert (In r rows') by (apply IH; eauto).
        destruct v; [now right | assumption].
Qed.



(** ** Ingestion Coordinator *)

Lemma count_video_insert (t : table) (r : row) (vid : str) :
  video_id r = vid ->
  let (t', rowcount) := insert_or_ignore t r in
  count_video t' vid
  = (count_video t vid + (if (rowcount >? 0)%Z then 1 else 0))%Z.
Proof.
  intros V. unfold insert_or_ignore.
  destruct (not_null r && negb (existsb _ t)); simpl; [|lia].
  unfold count_video. rewrite filter_app, length_app. simpl.
  rewrite V, str_eqb_refl. simpl. lia.
Qed.

Lemma store_rows_count (vid : str) (rows : list row) :
  Forall (fun r => video_id r = vid) rows ->
  forall t n,
    let (t', n') := store_rows rows t n in
    (count_video t' vid - n' = count_video t vid - n)%Z.
Proof.
  unfold store_rows.
  induction 1 as [|r rows V _ IH]; intros t n; simpl; [reflexivity|].
  pose proof (count_video_insert t r vid V) as C.
  destruct (insert_or_ignore t r) as [t1 rc]. simpl.
  specialize (IH t1 (if (rc >? 0)%Z then n + 1 else n)%Z).
  destruct (fold_left _ rows _) as [t' n'].
  destruct (rc >? 0)%Z; lia.
Qed.

Lemma candidates_video_id (vid url : str) (events : list event) :
  forall i rows,
    candidates vid url i events = Ok rows ->
    Forall (fun r => video_id r = vid) rows.
Proof.
  intros i rows C. apply Forall_forall. intros r R.
  apply (candidates_in vid url events i rows C) in R as (k & ev & _ & R).
  apply event_row_inv in R as (text & s & d & _ & _ & _ & _ & ->).
  reflexivity.
Qed.

Lemma insert_events_count (vid url : str) (events : list event)
    (t t' : table) (n : Z) :
  insert_events vid url 0 events t 0 = Ok (t', n) ->
  count_video t' vid = (count_video t vid + n)%Z.
Proof.
  rewrite insert_events_candidates.
  destruct (candidates vid url 0 events) as [rows|] eqn:C; simpl;
    [|discriminate].
  intros E. injection E as E.
  pose proof (store_rows_count vid rows
                (candidates_video_id vid url events _ _ C) t 0%Z) as S.
  rewrite E in S. lia.
Qed.

Lemma parse_files_count (vid url : str) (paths : list str) :
  forall w n w',
    parse_files vid url paths w = (n, w') ->
    count_video (db w') vid = (count_video (db w) vid + n)%Z
    /\ fetched w' = fetched w.
Proof.
  induction paths as [|path rest IH]; intros w n w'; simpl.
  - intros E. injection E as <- <-. split; [lia | reflexivity].
  - destruct (read_file (fs w) path) as [[events|]|]; try apply IH.
    destruct (insert_events vid url 0 (default [] events) (db w) 0)
      as [[t1 n1]|] eqn:I; [|apply IH].
    intros E. injection E as <- <-. simpl.
    split; [exact (insert_events_count _ _ _ _ _ _ I) | reflexivity].
Qed.

Lemma download_subtitle_ok (yt_dlp : fetcher)
    (video_url output_dir rid : str) (w w1 : world) :
  download_subtitle yt_dlp video_url output_dir w = ((true, rid), w1) ->
  extract_video_id video_url = Ok rid /\ db w1 = db w.
Proof.
  unfold download_subtitle.
  destruct (extract_video_id video_url) as [vid|]; [|discriminate].
  destruct (yt_dlp output_dir video_url (fs w)) as [[rc|] fs'];
    [|discriminate].
  destruct (rc =? 0)%Z; [|discriminate].
  intros E. injection E as <- <-. auto.
Qed.

Lemma count_video_nonneg (t : table) (vid : str) : (0 <= count_video t vid)%Z.
Proof. unfold count_video. lia. Qed.

(** What a first run with status [success] leaves behind. *)
Lemma process_single_video_success (yt_dlp : fetcher)
    (video_url : str) (w : world) :
  Outcome.status (fst (process_single_video yt_dlp video_url w)) = success ->
  exists vid,
    extract_video_id video_url = Ok vid
    /\ Outcome.video_id (fst (process_single_video yt_dlp video_url w)) = vid
    /\ (0 < Outcome.subtitle_count
              (fst (process_single_video yt_dlp video_url w)))%Z
    /\ count_video (db (snd (process_single_video yt_dlp video_url w))) vid
       = Outcome.subtitle_count (fst (process_single_video yt_dlp video_url w)).
Proof.
  unfold process_single_video, process_single_video_try.
  destruct (extract_video_id video_url) as [vid|e] eqn:X; [|discriminate].
  destruct (_ >? 0)%Z eqn:G; [discriminate|].
  destruct (download_subtitle yt_dlp video_url _ w) as [[ok rid] w1] eqn:D.
  destruct ok; [|discriminate].
  apply download_subtitle_ok in D as [D1 D2].
  rewrite X in D1. injection D1 as <-.
  destruct (parse_subtitle_file vid video_url _ w1) as [n w2] eqn:P.
  simpl. destruct (n >? 0)%Z eqn:N; [|discriminate]. intros _.
  apply parse_files_count in P as [P _].
  pose proof (count_video_nonneg (db w) vid).
  exists vid. repeat split; try lia. rewrite P, D2. lia.
Qed.

(** C4.  When a first run on a reference ends with status [success], a
    second run from the world the first one left returns status
    [skipped] with the number of rows stored for the video, which is the
    number the first run reported, and leaves the world as it found it:
    the same rows, the same directory, no further run of the track
    fetcher. *)
Theorem ingestion_idempotent (yt_dlp : fetcher)
    (video_url : str) (w : world) :
  Outcome.status (fst (process_single_video yt_dlp video_url w)) = success ->
  let first := process_single_video yt_dlp video_url w in
  let second := process_single_video yt_dlp video_url (snd first) in
  Outcome.status (fst second) = skipped
  /\ Outcome.video_id (fst second) = Outcome.video_id (fst first)
  /\ Outcome.subtitle_count (fst second)
     = count_video (db (snd first)) (Outcome.video_id (fst first))
  /\ Outcome.subtitle_count (fst second) = Outcome.subtitle_count (fst first)
  /\ snd second = snd first
  /\ count_video (db (snd second)) (Outcome.video_id (fst first))
     = count_video (db (snd first)) (Outcome.video_id (fst first))
  /\ fetched (snd second) = fetched (snd first).
Proof.
  intros S first second.
  destruct (process_single_video_success yt_dlp video_url w S)
    as (vid & X & V & N & C).
  fold first in V, N, C.
  assert (E : second
              = ({| Outcome.video_id := vid;
                    Outcome.url := video_url;
                    Outcome.status := skipped;
                    Outcome.error := None;
                    Outcome.subtitle_count :=
                      count_video (db (snd first)) vid |}, snd first)).
  { subst second. unfold process_single_video at 1.
    unfold process_single_video_try. rewrite X.
    destruct (_ >? 0)%Z eqn:G; [reflexivity | lia]. }
  rewrite E, V. simpl. rewrite C. repeat split; reflexivity.
Qed.

(** ** Search Engine *)











(** C9.  A filter dictionary whose four entries are each missing or
    false ([0] for a duration bound, the empty list for [video_ids],
    [False] for [exclude_short]) adds no condition: the filtered search
    returns what it returns without filters. *)
Theorem falsy_filters_are_absent (unicode_Nd : char -> bool)
    (search_term : str) (f : Filters.t)
    (t : table) :
  falsy_entry truthy_float (Filters.min_duration f) ->
  falsy_entry truthy_float (Filters.max_duration f) ->
  falsy_entry truthy_list (Filters.video_ids f) ->
  falsy_entry (fun b : bool => b) (Filters.exclude_short f) ->
  conditions (Some f) = []
  /\ advanced_search unicode_Nd search_term (Some f) t
     = advanced_search unicode_Nd search_term None t.
Proof.
  intros H1 H2 H3 H4.
  assert (C : conditions (Some f) = []).
  { unfold conditions, get_truthy.
    destruct (Filters.min_duration f) as [x1|]; simpl in H1;
      rewrite ?H1;
      destruct (Filters.max_duration f) as [x2|]; simpl in H2;
      rewrite ?H2;
      destruct (Filters.video_ids f) as [x3|]; simpl in H3;
      rewrite ?H3;
      destruct (Filters.exclude_short f) as [x4|]; simpl in H4;
      rewrite ?H4; reflexivity. }
  split; [exact C|].
  unfold advanced_search. rewrite C. reflexivity.
Qed.

(** ** Context Resolver *)





(** * Further properties of the program *)

(** ** Facts on [strip] *)

Lemma lstrip_idem (s : str) : lstrip (lstrip s) = lstrip s.
Proof.
  induction s as [|c s IH]; simpl; [reflexivity|].
  destruct (is_space c) eqn:E; [exact IH|]. simpl. now rewrite E.
Qed.

Lemma lstrip_snoc (s : str) (c : char) :
  is_space c = false -> lstrip (s ++ [c]) = lstrip s ++ [c].
Proof.
  intros E. induction s as [|x s IH]; simpl; [now rewrite E|].
  destruct (is_space x); [exact IH | reflexivity].
Qed.

Lemma strip_cons (c : char) (s : str) :
  is_space c = false ->
  rev (lstrip (rev (c :: s))) = c :: rev (lstrip (rev s)).
Proof.
  intros E. simpl. rewrite (lstrip_snoc _ _ E), rev_app_distr. reflexivity.
Qed.

Lemma strip_idem (s : str) : strip (strip s) = strip s.
Proof.
  unfold strip. destruct (lstrip s) as [|c x] eqn:L; [reflexivity|].
  assert (E : is_space c = false).
  { clear -L. induction s as [|y s IH]; simpl in L; [discriminate|].
    destruct (is_space y) eqn:Y; [auto|]. now injection L as <- _. }
  rewrite (strip_cons c x E). simpl lstrip at 2. rewrite E.
  rewrite (strip_cons c _ E). f_equal.
  now rewrite rev_involutive, lstrip_idem.
Qed.

(** ** The store loop, row by row *)

Lemma store_rows_cons (r : row) (rows : list row) (t : table) (n : Z) :
  store_rows (r :: rows) t n
  = store_rows rows (fst (insert_or_ignore t r))
      (if (snd (insert_or_ignore t r) >? 0)%Z then n + 1 else n)%Z.
Proof.
  unfold store_rows. simpl. now destruct (insert_or_ignore t r).
Qed.

Lemma store_rows_added (rows : list row) :
  forall t n,
  exists added,
    store_rows rows t n = (t ++ added, (n + Z.of_nat (List.length added))%Z)
    /\ Forall (fun r => In r rows /\ not_null r = true) added.
Proof.
  induction rows as [|r rows IH]; intros t n.
  - exists []. unfold store_rows. simpl. rewrite app_nil_r, Z.add_0_r. auto.
  - rewrite store_rows_cons. unfold insert_or_ignore.
    destruct (not_null r) eqn:N; simpl.
    + destruct (existsb (fun a => same_key a r) t); simpl.
      * destruct (IH t n) as (added & E & F). exists added.
        split; [exact E|]. eapply Forall_impl; [|exact F].
        simpl. intros a [H1 H2]. auto.
      * destruct (IH (t ++ [r]) (n + 1)%Z) as (added & E & F).
        exists (r :: added). rewrite E, <- app_assoc. simpl List.length.
        split; [f_equal; lia|]. constructor; [simpl; auto|].
        eapply Forall_impl; [|exact F]. simpl. intros a [H1 H2]. auto.
    + destruct (IH t n) as (added & E & F). exists added.
      split; [exact E|]. eapply Forall_impl; [|exact F].
      simpl. intros a [H1 H2]. auto.
Qed.

Lemma event_text_stripped (ev : event) (text : str) :
  event_text ev = Some text -> strip text = text.
Proof.
  unfold event_text. destruct (segs ev); [|discriminate].
  intros E. injection E as <-. apply strip_idem.
Qed.

Lemma candidates_rows (vid url : str) (events : list event) (i : Z)
    (rows : list row) :
  candidates vid url i events = Ok rows ->
  Forall (fun r =>
            video_id r = vid /\ video_url r = url
            /\ japanese_text r <> []
            /\ strip (japanese_text r) = japanese_text r
            /\ end_time r = (start_time r + duration r)%float) rows.
Proof.
  intros C. apply Forall_forall. intros r R.
  apply (candidates_in vid url events i rows C) in R as (k & ev & _ & R).
  apply event_row_inv in R as (text & s & d & T & N & _ & _ & ->).
  simpl. repeat split; auto. exact (event_text_stripped ev text T).
Qed.

Lemma insert_events_added (vid url : str) (events : list event)
    (t t' : table) (n : Z) :
  insert_events vid url 0 events t 0 = Ok (t', n) ->
  exists added,
    t' = t ++ added /\ n = Z.of_nat (List.length added)
    /\ Forall (fun r => video_id r = vid /\ video_url r = url
                        /\ caption_ok r) added.
Proof.
  rewrite insert_events_candidates.
  destruct (candidates vid url 0 events) as [rows|] eqn:C; simpl;
    [|discriminate].
  destruct (store_rows_added rows t 0%Z) as (added & E & F).
  rewrite E. intros X. injection X as <- <-.
  exists added. split; [reflexivity|]. split; [lia|].
  pose proof (candidates_rows vid url events 0%Z rows C) as R.
  rewrite Forall_forall in *. intros r A.
  destruct (F r A) as [I N]. destruct (R r I) as (V & U & T & S & En).
  unfold caption_ok. auto 10.
Qed.

Lemma parse_files_added (vid url : str) (paths : list str) :
  forall w n w',
    parse_files vid url paths w = (n, w') ->
    exists added,
      db w' = db w ++ added /\ n = Z.of_nat (List.length added)
      /\ Forall (fun r => video_id r = vid /\ video_url r = url
                          /\ caption_ok r) added
      /\ fetched w' = fetched w.
Proof.
  induction paths as [|path rest IH]; intros w n w'; simpl.
  - intros E. injection E as <- <-. exists []. rewrite app_nil_r. auto.
  - destruct (read_file (fs w) path) as [[events|]|]; try apply IH.
    destruct (insert_events vid url 0 (default [] events) (db w) 0)
      as [[t1 n1]|] eqn:I; [|apply IH].
    intros E. injection E as <- <-. simpl.
    destruct (insert_events_added _ _ _ _ _ _ I) as (added & E1 & E2 & F).
    exists added. auto.
Qed.

(** ** One call of the coordinator, case by case *)

Lemma download_subtitle_cases (yt_dlp : fetcher)
    (video_url output_dir vid : str) (w : world) :
  extract_video_id video_url = Ok vid ->
  exists ok rid w1,
    download_subtitle yt_dlp video_url output_dir w = ((ok, rid), w1)
    /\ db w1 = db w
    /\ fetched w1 = fetched w ++ [video_url]
    /\ (ok = true -> rid = vid).
Proof.
  intros X. unfold download_subtitle. rewrite X.
  destruct (yt_dlp output_dir video_url (fs w)) as [[rc|] fs'].
  - destruct (rc =? 0)%Z; eexists _, _, _; simpl; repeat split; auto.
  - eexists _, _, _; simpl; repeat split; auto. discriminate.
Qed.

Lemma process_single_video_cases (yt_dlp : fetcher) (video_url : str)
    (w : world) :
  call_result video_url w (fst (process_single_video yt_dlp video_url w))
    (snd (process_single_video yt_dlp video_url w)).
Proof.
  unfold process_single_video, process_single_video_try.
  destruct (extract_video_id video_url) as [vid|e] eqn:X.
  2:{ simpl. now apply call_error. }
  pose proof (count_video_nonneg (db w) vid) as P.
  destruct (_ >? 0)%Z eqn:G.
  { simpl. apply (call_skipped _ _ vid); auto. lia. }
  destruct (download_subtitle_cases yt_dlp video_url (lit "subtitles") vid w X)
    as (ok & rid & w1 & D & D1 & D2 & D3).
  rewrite D. destruct ok.
  - rewrite (D3 eq_refl).
    destruct (parse_subtitle_file vid video_url _ w1) as [n w2] eqn:Q.
    apply parse_files_added in Q as (added & Q1 & Q2 & Q3 & Q4).
    simpl. apply (call_parsed _ _ vid _ _ added); simpl; auto; try lia.
    + rewrite Q2. destruct added; reflexivity.
    + now rewrite Q1, D1.
    + now rewrite Q4.
  - simpl. apply (call_failed _ _ vid); auto. lia.
Qed.

Lemma grows_refl (w : world) : grows w w.
Proof. exists []. now rewrite app_nil_r. Qed.

Lemma grows_trans (w1 w2 w3 : world) : grows w1 w2 -> grows w2 w3 -> grows w1 w3.
Proof.
  intros [a E1] [b E2]. exists (a ++ b). now rewrite E2, E1, app_assoc.
Qed.

Lemma call_result_grows (url : str) (w : world) (o : Outcome.t) (w' : world) :
  call_result url w o w' -> grows w w'.
Proof.
  intros [e X|vid o' X|vid o' w1 X C V U S E N D F
          |vid o' w1 added X C V U S E N D A F].
  - apply grows_refl.
  - apply grows_refl.
  - exists []. now rewrite app_nil_r.
  - now exists added.
Qed.

Lemma process_single_video_grows (yt_dlp : fetcher) (url : str) (w : world) :
  grows w (snd (process_single_video yt_dlp url w)).
Proof.
  exact (call_result_grows _ _ _ _ (process_single_video_cases yt_dlp url w)).
Qed.

Lemma count_video_app (t added : table) (vid : str) :
  count_video (t ++ added) vid
  = (count_video t vid + count_video added vid)%Z.
Proof. unfold count_video. rewrite filter_app, length_app. lia. Qed.

Lemma count_video_all (added : table) (vid : str) :
  Forall (fun r => video_id r = vid) added ->
  count_video added vid = Z.of_nat (List.length added).
Proof.
  unfold count_video. induction 1 as [|r added V _ IH]; [reflexivity|].
  simpl. rewrite V, str_eqb_refl. simpl List.length. lia.
Qed.

Lemma count_video_none (added : table) (vid : str) :
  Forall (fun r => video_id r <> vid) added -> count_video added vid = 0%Z.
Proof.
  unfold count_video. induction 1 as [|r added V _ IH]; [reflexivity|].
  simpl. destruct (str_eqb (video_id r) vid) eqn:E.
  - apply str_eqb_eq in E. contradiction.
  - exact IH.
Qed.

Lemma ingested_grows (w w' : world) (url : str) :
  grows w w' -> ingested (db w) url -> ingested (db w') url.
Proof.
  intros [added E] (vid & X & C). exists vid. split; [exact X|].
  rewrite E, count_video_app.
  pose proof (count_video_nonneg added vid). lia.
Qed.

Lemma call_result_skipped (url : str) (w : world) (o : Outcome.t)
    (w' : world) :
  call_result url w o w' ->
  (Outcome.status o = skipped <-> ingested (db w) url).
Proof.
  intros [e X|vid o' X C V U S E N|vid o' w1 X C V U S E N D F
          |vid o' w1 added X C V U S E N D A F].
  - split; [discriminate|]. intros (vid & X' & _). congruence.
  - split; [|auto]. intros _. now exists vid.
  - rewrite S. split; [discriminate|].
    intros (vid' & X' & C'). rewrite X in X'. injection X' as <-. lia.
  - rewrite S. split; [destruct added; discriminate|].
    intros (vid' & X' & C'). rewrite X in X'. injection X' as <-. lia.
Qed.

Lemma call_result_ingests (url : str) (w : world) (o : Outcome.t)
    (w' : world) :
  call_result url w o w' ->
  Outcome.status o = success \/ Outcome.status o = skipped ->
  ingested (db w') url.
Proof.
  intros [e X|vid o' X C V U S E N|vid o' w1 X C V U S E N D F
          |vid o' w1 added X C V U S E N D A F].
  - intros [H|H]; discriminate.
  - intros _. now exists vid.
  - rewrite S. intros [H|H]; discriminate.
  - rewrite S. destruct added as [|r added]; [intros [H|H]; discriminate|].
    intros _. exists vid. split; [exact X|].
    rewrite D, count_video_app, (count_video_all (r :: added)).
    + simpl List.length. lia.
    + eapply Forall_impl; [|exact A]. simpl. tauto.
Qed.

(** Every outcome of a run of the workers is the outcome of one call, on a
    reference of the list, in a world between the first and the last. *)
Lemma run_workers_in (yt_dlp : fetcher) (video_urls : list str) :
  forall w o,
    In o (fst (run_workers yt_dlp video_urls w)) ->
    exists u wi,
      In u video_urls /\ grows w wi
      /\ o = fst (process_single_video yt_dlp u wi)
      /\ grows (snd (process_single_video yt_dlp u wi))
           (snd (run_workers yt_dlp video_urls w)).
Proof.
  induction video_urls as [|u rest IH]; intros w o; simpl; [contradiction|].
  pose proof (process_single_video_grows yt_dlp u w) as G.
  destruct (process_single_video yt_dlp u w) as [o1 w1] eqn:P.
  specialize (IH w1).
  destruct (run_workers yt_dlp rest w1) as [os w2] eqn:R. simpl in *.
  intros [<-|I].
  - exists u, w. rewrite P. simpl. split; [auto|]. split; [apply grows_refl|].
    split; [reflexivity|].
    clear -R. revert w1 os w2 R. induction rest as [|u' rest IH];
      intros w1 os w2 R; simpl in R.
    + injection R as <- <-. apply grows_refl.
    + pose proof (process_single_video_grows yt_dlp u' w1) as G.
      destruct (process_single_video yt_dlp u' w1) as [o' w'].
      destruct (run_workers yt_dlp rest w') as [os' w''] eqn:R'.
      injection R as <- <-. simpl in G.
      exact (grows_trans _ _ _ G (IH _ _ _ R')).
  - destruct (IH o I) as (u' & wi & I' & G1 & E & G2).
    exists u', wi. split; [auto|]. split; [exact (grows_trans _ _ _ G G1)|].
    auto.
Qed.

Lemma run_workers_grows (yt_dlp : fetcher) (video_urls : list str)
    (w : world) :
  grows w (snd (run_workers yt_dlp video_urls w)).
Proof.
  revert w. induction video_urls as [|u rest IH]; intros w; simpl.
  - apply grows_refl.
  - pose proof (process_single_video_grows yt_dlp u w) as G.
    destruct (process_single_video yt_dlp u w) as [o1 w1].
    specialize (IH w1). destruct (run_workers yt_dlp rest w1) as [os w2].
    simpl in *. exact (grows_trans _ _ _ G IH).
Qed.

Lemma process_video_list_details (yt_dlp : fetcher)
    (schedule : list str -> list str) (video_urls : list str)
    (max_workers : option Z) (w : world) (report : Report.t) (w' : world) :
  process_video_list yt_dlp schedule video_urls max_workers w
  = (Ok report, w') ->
  Report.details report = fst (run_workers yt_dlp (schedule video_urls) w)
  /\ w' = snd (run_workers yt_dlp (schedule video_urls) w).
Proof.
  unfold process_video_list. destruct (_ <=? 0)%Z; [discriminate|].
  destruct (run_workers yt_dlp (schedule video_urls) w) as [os w2].
  intros E. injection E as <- <-.
  destruct (fold_tally os empty_report) as (_ & _ & _ & _ & D).
  simpl in D. auto.
Qed.

(** X1.  A batch only appends: after [process_video_list] the table is
    the table before it, row for row, followed by the rows the batch
    stored.  No stored row is removed, changed or moved, whether the
    batch returns a report or raises. *)
Theorem batch_only_appends (yt_dlp : fetcher)
    (schedule : list str -> list str) (video_urls : list str)
    (max_workers : option Z) (w : world) :
  exists added,
    db (snd (process_video_list yt_dlp schedule video_urls max_workers w))
    = db w ++ added.
Proof.
  unfold process_video_list. destruct (_ <=? 0)%Z.
  - exists []. cbn [snd]. now rewrite app_nil_r.
  - pose proof (run_workers_grows yt_dlp (schedule video_urls) w) as G.
    destruct (run_workers yt_dlp (schedule video_urls) w) as [os w2].
    exact G.
Qed.

(** X2.  Once a batch has stored or skipped a reference, every later
    batch skips it, whatever fetcher, schedule and list the later batch
    has. *)
Theorem ingested_reference_stays_skipped (yt1 yt2 : fetcher)
    (schedule1 schedule2 : list str -> list str) (urls1 urls2 : list str)
    (workers1 workers2 : option Z) (w w1 w2 : world)
    (report1 report2 : Report.t) :
  process_video_list yt1 schedule1 urls1 workers1 w = (Ok report1, w1) ->
  process_video_list yt2 schedule2 urls2 workers2 w1 = (Ok report2, w2) ->
  forall o1 o2,
    In o1 (Report.details report1) -> In o2 (Report.details report2) ->
    Outcome.status o1 = success \/ Outcome.status o1 = skipped ->
    Outcome.url o2 = Outcome.url o1 ->
    Outcome.status o2 = skipped.
Proof.
  intros P1 P2 o1 o2 I1 I2 S U.
  apply process_video_list_details in P1 as [D1 ->].
  apply process_video_list_details in P2 as [D2 ->].
  rewrite D1 in I1. rewrite D2 in I2.
  apply run_workers_in in I1 as (u1 & wi & _ & _ & E1 & G1).
  apply run_workers_in in I2 as (u2 & wj & _ & G2 & E2 & _).
  pose proof (process_single_video_cases yt1 u1 wi) as C1.
  pose proof (process_single_video_cases yt2 u2 wj) as C2.
  rewrite <- E1 in C1. rewrite <- E2 in C2.
  assert (U1 : Outcome.url o1 = u1)
    by (rewrite E1; apply process_single_video_url).
  assert (U2 : Outcome.url o2 = u2)
    by (rewrite E2; apply process_single_video_url).
  apply (call_result_skipped _ _ _ _ C2).
  apply (ingested_grows _ _ _ G2). apply (ingested_grows _ _ _ G1).
  rewrite <- U2, U, U1. exact (call_result_ingests _ _ _ _ C1 S).
Qed.

(** X3.  One call of [process_single_video] only adds rows at the end of
    the table, all of them for the video and the reference of the call.
    It adds rows exactly when its status is [success], and then
    [subtitle_count] is their number. *)
Theorem process_single_video_appends (yt_dlp : fetcher) (url : str)
    (w : world) :
  exists added,
    db (snd (process_single_video yt_dlp url w)) = db w ++ added
    /\ Forall (fun r =>
                 video_id r
                 = Outcome.video_id
                     (fst (process_single_video yt_dlp url w))
                 /\ video_url r = url) added
    /\ (Outcome.status (fst (process_single_video yt_dlp url w))
        = success <-> added <> [])
    /\ (added <> [] ->
        Outcome.subtitle_count (fst (process_single_video yt_dlp url w))
        = Z.of_nat (List.length added)).
Proof.
  destruct (process_single_video_cases yt_dlp url w)
    as [e X|vid o' X C V U S E N|vid o' w1 X C V U S E N D F
        |vid o' w1 added X C V U S E N D A F].
  - exists []. rewrite app_nil_r. repeat split; auto; try discriminate;
      intros H; now elim H.
  - exists []. rewrite app_nil_r, S. repeat split; auto; try discriminate;
      intros H; now elim H.
  - exists []. rewrite app_nil_r, S. repeat split; auto; try discriminate;
      intros H; now elim H.
  - exists added. split; [exact D|]. split.
    + eapply Forall_impl; [|exact A]. simpl. intros r (H1 & H2 & _).
      split; congruence.
    + rewrite S. split; [|intros _; exact N].
      destruct added; split; try discriminate; auto.
      intros H; now elim H.
Qed.

Lemma call_result_captions (url : str) (w : world) (o : Outcome.t)
    (w' : world) :
  call_result url w o w' ->
  Forall caption_ok (db w) -> Forall caption_ok (db w').
Proof.
  intros [e X|vid o' X C V U S E N|vid o' w1 X C V U S E N D F
          |vid o' w1 added X C V U S E N D A F] H; auto.
  - now rewrite D.
  - rewrite D. apply Forall_app. split; [exact H|].
    eapply Forall_impl; [|exact A]. simpl. tauto.
Qed.

Lemma run_workers_invariant (yt_dlp : fetcher) (I : world -> Prop) :
  (forall u w, I w -> I (snd (process_single_video yt_dlp u w))) ->
  forall video_urls w, I w -> I (snd (run_workers yt_dlp video_urls w)).
Proof.
  intros Step. induction video_urls as [|u rest IH]; intros w H; simpl.
  - exact H.
  - pose proof (Step u w H) as H1.
    destruct (process_single_video yt_dlp u w) as [o1 w1].
    specialize (IH w1 H1). now destruct (run_workers yt_dlp rest w1).
Qed.

Lemma process_video_list_invariant (yt_dlp : fetcher)
    (schedule : list str -> list str) (I : world -> Prop) :
  (forall u w, I w -> I (snd (process_single_video yt_dlp u w))) ->
  forall video_urls max_workers w,
    I w -> I (snd (process_video_list yt_dlp schedule video_urls
                     max_workers w)).
Proof.
  intros Step video_urls max_workers w H. unfold process_video_list.
  destruct (_ <=? 0)%Z; [exact H|].
  pose proof (run_workers_invariant yt_dlp I Step (schedule video_urls) w H)
    as R.
  now destruct (run_workers yt_dlp (schedule video_urls) w).
Qed.

(** X4.  A batch stores well-formed captions only: if every row of the
    table has a text that is not empty and has no white space at its ends,
    times that are numbers and an end time equal to start time plus
    duration, then so has every row after [process_video_list]. *)
Theorem batch_stores_well_formed_captions (yt_dlp : fetcher)
    (schedule : list str -> list str) (video_urls : list str)
    (max_workers : option Z) (w : world) :
  Forall caption_ok (db w) ->
  Forall caption_ok
    (db (snd (process_video_list yt_dlp schedule video_urls max_workers w))).
Proof.
  apply (process_video_list_invariant yt_dlp schedule
           (fun w => Forall caption_ok (db w))).
  intros u w0. apply call_result_captions with (url := u)
    (o := fst (process_single_video yt_dlp u w0)).
  apply process_single_video_cases.
Qed.

Lemma store_rows_unique (rows : list row) :
  forall t n, unique_keys t -> unique_keys (fst (store_rows rows t n)).
Proof.
  induction rows as [|r rows IH]; intros t n U; [exact U|].
  rewrite store_rows_cons. apply IH. now apply insert_or_ignore_unique.
Qed.

Lemma parse_files_unique (vid url : str) (paths : list str) :
  forall w, unique_keys (db w) ->
            unique_keys (db (snd (parse_files vid url paths w))).
Proof.
  induction paths as [|path rest IH]; intros w U; simpl; [exact U|].
  destruct (read_file (fs w) path) as [[events|]|]; try now apply IH.
  rewrite insert_events_candidates.
  destruct (candidates vid url 0 (default [] events)) as [rows|]; simpl;
    [|now apply IH].
  pose proof (store_rows_unique rows (db w) 0%Z U) as S.
  destruct (store_rows rows (db w) 0) as [t1 n1]. exact S.
Qed.

Lemma process_single_video_unique (yt_dlp : fetcher) (video_url : str)
    (w : world) :
  unique_keys (db w) ->
  unique_keys (db (snd (process_single_video yt_dlp video_url w))).
Proof.
  intros U. unfold process_single_video, process_single_video_try.
  destruct (extract_video_id video_url) as [vid|e] eqn:X; [|exact U].
  destruct (_ >? 0)%Z; [exact U|].
  destruct (download_subtitle_cases yt_dlp video_url (lit "subtitles") vid w X)
    as (ok & rid & w1 & D & D1 & _).
  rewrite D. destruct ok.
  - pose proof (parse_files_unique rid video_url
                  (subtitle_files (lit "subtitles") rid) w1) as Q.
    rewrite D1 in Q. specialize (Q U). unfold parse_subtitle_file.
    now destruct (parse_files rid video_url _ w1).
  - simpl. now rewrite D1.
Qed.

(** X5.  A batch keeps the uniqueness constraint of the table: when no two
    rows share video, start time and text before [process_video_list],
    none do after it. *)
Theorem batch_keeps_keys_unique (yt_dlp : fetcher)
    (schedule : list str -> list str) (video_urls : list str)
    (max_workers : option Z) (w : world) :
  unique_keys (db w) ->
  unique_keys
    (db (snd (process_video_list yt_dlp schedule video_urls max_workers w))).
Proof.
  apply (process_video_list_invariant yt_dlp schedule
           (fun w => unique_keys (db w))).
  intros u w0. apply process_single_video_unique.
Qed.

(** X6.  [process_single_video] runs the track fetcher exactly when the
    reference parses and the video has no row yet, and then once, on that
    reference.  Its status is [skipped] exactly when the video of the
    reference has rows; the world then stays as it is and
    [subtitle_count] is the number of those rows. *)
Theorem fetch_only_when_absent (yt_dlp : fetcher) (video_url : str)
    (w : world) :
  fetched (snd (process_single_video yt_dlp video_url w))
  = fetched w
    ++ match extract_video_id video_url with
       | Ok vid => if (count_video (db w) vid =? 0)%Z then [video_url] else []
       | Raise _ => []
       end
  /\ (Outcome.status (fst (process_single_video yt_dlp video_url w)) = skipped
      <-> ingested (db w) video_url)
  /\ (forall vid,
        extract_video_id video_url = Ok vid ->
        (0 < count_video (db w) vid)%Z ->
        snd (process_single_video yt_dlp video_url w) = w
        /\ Outcome.subtitle_count
             (fst (process_single_video yt_dlp video_url w))
           = count_video (db w) vid).
Proof.
  pose proof (process_single_video_cases yt_dlp video_url w) as C.
  split; [|split].
  - destruct C as [e X|vid o' X C V U S E N|vid o' w1 X C V U S E N D F
                   |vid o' w1 added X C V U S E N D A F]; rewrite X.
    + now rewrite app_nil_r.
    + destruct (Z.eqb_spec (count_video (db w) vid) 0); [lia|].
      now rewrite app_nil_r.
    + now rewrite C, F.
    + now rewrite C, F.
  - exact (call_result_skipped _ _ _ _ C).
  - intros vid X P.
    destruct C as [e X'|vid' o' X' C V U S E N|vid' o' w1 X' C V U S E N D F
                   |vid' o' w1 added X' C V U S E N D A F];
      rewrite X in X'; try discriminate; injection X' as <-; try lia.
    auto.
Qed.

Lemma fold_tally_total (outcomes : list Outcome.t) (results : Report.t) :
  Report.total_subtitles (fold_left tally outcomes results)
  = (Report.total_subtitles results + sum_Z (map counted outcomes))%Z.
Proof.
  revert results. induction outcomes as [|o os IH]; intros results.
  - simpl. lia.
  - cbn [fold_left map sum_Z fold_right]. rewrite IH.
    fold (sum_Z (map counted os)).
    assert (T : Report.total_subtitles (tally results o)
                = (Report.total_subtitles results + counted o)%Z).
    { unfold tally, counted. destruct (Outcome.status o);
        cbn -[Z.add]; lia. }
    rewrite T. lia.
Qed.

Lemma call_result_count (url : str) (w : world) (o : Outcome.t) (w' : world) :
  call_result url w o w' ->
  (forall vid,
     extract_video_id url = Ok vid -> counted o = count_video (db w') vid)
  /\ (forall vid,
        extract_video_id url <> Ok vid ->
        count_video (db w') vid = count_video (db w) vid)
  /\ (forall e, extract_video_id url = Raise e -> counted o = 0%Z).
Proof.
  intros [e X|vid o' X C V U S E N|vid o' w1 X C V U S E N D F
          |vid o' w1 added X C V U S E N D A F].
  - split; [|split]; auto; congruence.
  - unfold counted. rewrite S, N. split; [|split]; intros; congruence.
  - unfold counted. rewrite S, D. split; [|split]; intros; congruence.
  - assert (CA : count_video added vid = Z.of_nat (List.length added)).
    { apply count_video_all. eapply Forall_impl; [|exact A]. simpl. tauto. }
    split; [|split]; [| |congruence].
    + intros vid' X'. assert (vid' = vid) as -> by congruence.
      rewrite D, count_video_app, CA, C. unfold counted. rewrite S, N.
      destruct added; reflexivity.
    + intros vid' X'. rewrite D, count_video_app.
      rewrite (count_video_none added vid'); [lia|].
      eapply Forall_impl; [|exact A]. simpl. intros r (V1 & _) V2.
      apply X'. congruence.
Qed.

Lemma run_workers_other (yt_dlp : fetcher) (vid : str)
    (video_urls : list str) :
  forall w,
    ~ In vid (batch_ids video_urls) ->
    count_video (db (snd (run_workers yt_dlp video_urls w))) vid
    = count_video (db w) vid.
Proof.
  induction video_urls as [|u rest IH]; intros w NI; [reflexivity|].
  simpl.
  destruct (call_result_count u w _ _ (process_single_video_cases yt_dlp u w))
    as (_ & Other & _).
  destruct (process_single_video yt_dlp u w) as [o1 w1].
  specialize (IH w1). destruct (run_workers yt_dlp rest w1) as [os w2].
  simpl in *. rewrite IH.
  - apply Other. intros X. apply NI. rewrite X. simpl. auto.
  - intros I. apply NI. apply in_or_app. auto.
Qed.

Lemma run_workers_total (yt_dlp : fetcher) (video_urls : list str) :
  forall w,
    NoDup (batch_ids video_urls) ->
    sum_Z (map counted (fst (run_workers yt_dlp video_urls w)))
    = sum_Z (map (count_video (db (snd (run_workers yt_dlp video_urls w))))
               (batch_ids video_urls)).
Proof.
  induction video_urls as [|u rest IH]; intros w ND; [reflexivity|].
  simpl.
  destruct (call_result_count u w _ _ (process_single_video_cases yt_dlp u w))
    as (Same & _ & Err).
  pose proof (run_workers_other yt_dlp) as Other.
  destruct (process_single_video yt_dlp u w) as [o1 w1].
  specialize (IH w1). specialize (fun vid => Other vid rest w1).
  destruct (run_workers yt_dlp rest w1) as [os w2].
  simpl in *. destruct (extract_video_id u) as [vid|e].
  - simpl in *. inversion ND as [|? ? NI ND']; subst.
    rewrite (Other vid NI), <- (Same vid eq_refl), (IH ND'). reflexivity.
  - simpl in *. rewrite (Err e eq_refl), (IH ND). reflexivity.
Qed.

Lemma batch_ids_perm (l l' : list str) :
  Permutation l l' -> Permutation (batch_ids l) (batch_ids l').
Proof.
  unfold batch_ids. induction 1; simpl.
  - constructor.
  - now apply Permutation_app_head.
  - rewrite !app_assoc. apply Permutation_app_tail, Permutation_app_comm.
  - etransitivity; eauto.
Qed.

Lemma sum_Z_perm (l l' : list Z) : Permutation l l' -> sum_Z l = sum_Z l'.
Proof. unfold sum_Z. induction 1; simpl; lia. Qed.

(** X7.  When the pool completes every submitted call once and no two
    references of the batch name the same video, ['total_subtitles'] is
    the number of rows the table holds for the videos of the batch when
    [process_video_list] returns. *)
Theorem total_subtitles_counts_rows (yt_dlp : fetcher)
    (schedule : list str -> list str) (video_urls : list str)
    (max_workers : option Z) (w w' : world) (report : Report.t) :
  Permutation (schedule video_urls) video_urls ->
  NoDup (batch_ids video_urls) ->
  process_video_list yt_dlp schedule video_urls max_workers w
  = (Ok report, w') ->
  Report.total_subtitles report
  = sum_Z (map (count_video (db w')) (batch_ids video_urls)).
Proof.
  intros P ND. unfold process_video_list.
  destruct (_ <=? 0)%Z; [discriminate|].
  pose proof (run_workers_total yt_dlp (schedule video_urls) w) as T.
  destruct (run_workers yt_dlp (schedule video_urls) w) as [os w2].
  intros E. injection E as <- <-. rewrite fold_tally_total. simpl in *.
  rewrite T.
  - apply sum_Z_perm, Permutation_map, batch_ids_perm, P.
  - eapply Permutation_NoDup; [|exact ND].
    apply Permutation_sym, batch_ids_perm, P.
Qed.

Lemma ignored_app (t more : table) (r : row) :
  ignored t r -> ignored (t ++ more) r.
Proof.
  intros [N|E]; [now left|right]. rewrite existsb_app, E. reflexivity.
Qed.

Lemma insert_or_ignore_ignored (t : table) (r : row) :
  ignored (fst (insert_or_ignore t r)) r.
Proof.
  unfold insert_or_ignore, ignored.
  destruct (not_null r) eqn:N; [|now left]. right. simpl.
  destruct (existsb (fun a => same_key a r) t) eqn:E; simpl; [exact E|].
  rewrite existsb_app. simpl. rewrite (same_key_refl r N).
  now rewrite orb_true_r.
Qed.

Lemma store_rows_ignored (rows : list row) :
  forall t n, Forall (ignored (fst (store_rows rows t n))) rows.
Proof.
  induction rows as [|r rows IH]; intros t n; [constructor|].
  rewrite store_rows_cons. constructor; [|apply IH].
  destruct (store_rows_added rows (fst (insert_or_ignore t r))
              (if (snd (insert_or_ignore t r) >? 0)%Z then n + 1 else n)%Z)
    as (added & -> & _).
  apply ignored_app, insert_or_ignore_ignored.
Qed.

Lemma store_rows_fixed (rows : list row) (t : table) (n : Z) :
  Forall (ignored t) rows -> store_rows rows t n = (t, n).
Proof.
  induction 1 as [|r rows I _ IH]; [reflexivity|].
  rewrite store_rows_cons.
  assert (E : insert_or_ignore t r = (t, 0%Z)).
  { unfold insert_or_ignore. destruct I as [-> | ->]; [reflexivity|].
    now rewrite andb_false_r. }
  rewrite E. exact IH.
Qed.

(** X8.  A track that [parse_subtitle_file] has parsed adds nothing when
    it is parsed again: on the same files and a table that holds what the
    first pass left (and any rows added since), the second pass returns 0
    and the table keeps its rows. *)
Theorem parsing_again_adds_nothing (vid url output_dir : str)
    (w w2 : world) (more : table) :
  fs w2 = fs w ->
  db w2 = db (snd (parse_subtitle_file vid url output_dir w)) ++ more ->
  fst (parse_subtitle_file vid url output_dir w2) = 0%Z
  /\ db (snd (parse_subtitle_file vid url output_dir w2)) = db w2.
Proof.
  unfold parse_subtitle_file.
  generalize (subtitle_files output_dir vid) as paths. intros paths.
  revert w w2 more.
  induction paths as [|path rest IH]; intros w w2 more F D; simpl in *;
    [auto|].
  rewrite F. destruct (read_file (fs w) path) as [[events|]|];
    try (now apply (IH w w2 more)).
  rewrite insert_events_candidates in *.
  destruct (candidates vid url 0 (default [] events)) as [rows|e]; simpl in *;
    [|now apply (IH w w2 more)].
  pose proof (store_rows_ignored rows (db w) 0%Z) as I.
  destruct (store_rows rows (db w) 0) as [t1 n1]. simpl in *.
  rewrite store_rows_fixed; [simpl; auto|].
  rewrite D. eapply Forall_impl; [|exact I]. intros r. apply ignored_app.
Qed.





Lemma parse_files_nothing (vid url : str) (paths : list str) (w : world) :
  Forall (fun path =>
            match read_file (fs w) path with
            | Some (Json3 events) =>
                exists e, candidates vid url 0 (default [] events) = Raise e
            | _ => True
            end) paths ->
  parse_files vid url paths w = (0%Z, w).
Proof.
  induction 1 as [|path rest H _ IH]; [reflexivity|].
  cbn [parse_files]. destruct (read_file (fs w) path) as [[events|]|];
    try exact IH.
  destruct H as [e H]. rewrite insert_events_candidates, H. exact IH.
Qed.

(** X10.  A track that cannot be converted stores nothing.  When each of
    the two track files is missing, unreadable or has an offset that does
    not convert, [parse_subtitle_file] returns 0 and leaves the table and
    the files as they were: the rows inserted before the failing event are
    not kept. *)
Theorem unconvertible_track_stores_nothing (vid url output_dir : str)
    (w : world) :
  (forall path events,
     In path (subtitle_files output_dir vid) ->
     read_file (fs w) path = Some (Json3 events) ->
     exists ev,
       In ev (default [] events) /\ event_text ev <> None
       /\ event_text ev <> Some [] /\ ~ offsets_convert ev) ->
  parse_subtitle_file vid url output_dir w = (0%Z, w).
Proof.
  intros H. apply parse_files_nothing. apply Forall_forall. intros path P.
  destruct (read_file (fs w) path) as [[events|]|] eqn:R; [|exact I..].
  destruct (H path events P R) as (ev & E & T1 & T2 & NC).
  clear -E T1 T2 NC. generalize 0%Z.
  induction (default [] events) as [|x l IH]; intros i; [contradiction|].
  cbn [candidates]. destruct E as [->|E].
  - assert (X : exists e, event_row vid url i ev = Raise e).
    { unfold event_row. destruct (event_text ev) as [[|c text]|];
        [now elim T2| |now elim T1].
      unfold ms_to_seconds.
      destruct (float_of_int (default 0%Z (tStartMs ev))) as [s|e] eqn:S;
        [|cbn [bind]; eauto].
      destruct (float_of_int (default 0%Z (dDurationMs ev))) as [d|e] eqn:D;
        [|cbn [bind]; eauto].
      elim NC. exists s, d. auto. }
    destruct X as [e ->]. cbn [bind]. eauto.
  - destruct (event_row vid url i x) as [v|e]; cbn [bind]; [|eauto].
    destruct (IH E (i + 1)%Z) as [e ->]. cbn [bind]. eauto.
Qed.

(** ** Reference Parser: where the identifier comes from *)

Lemma lit_v_eq : lit "v=" = [118; 61]%N.
Proof. vm_compute. reflexivity. Qed.

Lemma lit_slash : lit "/" = [47]%N.
Proof. vm_compute. reflexivity. Qed.

Lemma lit_embed : lit "embed/" = [101; 109; 98; 101; 100; 47]%N.
Proof. vm_compute. reflexivity. Qed.

Lemma lit_v_slash : lit "v/" = [118; 47]%N.
Proof. vm_compute. reflexivity. Qed.

Lemma strip_prefix_app (p s s' : str) :
  strip_prefix p s = Some s' <-> s = p ++ s'.
Proof.
  revert s. induction p as [|x p IH]; intros s; simpl.
  - split; congruence.
  - destruct s as [|y s]; [split; discriminate|].
    destruct (N.eqb_spec x y) as [->|N].
    + rewrite IH. split; congruence.
    + split; [discriminate|]. intros E. inversion E. congruence.
Qed.

Lemma id_group_spec (s g : str) :
  id_group s = Some g <->
  is_video_id g /\ exists post, s = g ++ post.
Proof.
  unfold id_group, is_video_id. split.
  - destruct (Nat.eqb_spec (List.length (firstn 11 s)) 11) as [L|L];
      cbn [andb]; [|discriminate].
    destruct (forallb is_id_char (firstn 11 s)) eqn:F; [|discriminate].
    intros E. injection E as <-. split; [auto|].
    exists (skipn 11 s). exact (eq_sym (firstn_skipn 11 s)).
  - intros [[L F] [post ->]].
    assert (E : firstn 11 (g ++ post) = g).
    { rewrite <- L. rewrite firstn_app, firstn_all, Nat.sub_diag. simpl.
      apply app_nil_r. }
    rewrite E, L, F. reflexivity.
Qed.

Lemma match_here_first (s : str) :
  match_here [lit "v="; lit "/"] s
  = match s with
    | c :: s' =>
        if (c =? 47)%N then id_group s'
        else if (c =? 118)%N then
          match s' with
          | d :: s'' => if (d =? 61)%N then id_group s'' else None
          | [] => None
          end
        else None
    | [] => None
    end.
Proof.
  rewrite lit_v_eq, lit_slash. destruct s as [|c s']; [reflexivity|].
  cbn [match_here strip_prefix].
  rewrite (N.eqb_sym 118 c), (N.eqb_sym 47 c).
  destruct (N.eqb_spec c 47) as [->|C47].
  - change (47 =? 118)%N with false. cbv iota. now destruct (id_group s').
  - destruct (c =? 118)%N; [|reflexivity].
    destruct s' as [|d s'']; [reflexivity|].
    rewrite (N.eqb_sym 61 d). destruct (d =? 61)%N; [|reflexivity].
    now destruct (id_group s'').
Qed.

Lemma re_search_cons (p : pattern) (c : char) (s : str) :
  match_here p (c :: s) = None -> re_search p (c :: s) = re_search p s.
Proof. intros E. simpl. simpl in E. now rewrite E. Qed.

Lemma re_search_none (p : pattern) (pre s : str) :
  re_search p (pre ++ s) = None -> match_here p s = None.
Proof.
  induction pre as [|c pre IH]; simpl.
  - destruct s; simpl; now destruct (match_here p _).
  - destruct (match_here p (c :: pre ++ s)); [discriminate|]. exact IH.
Qed.

Lemma re_search_some (p : pattern) (s g : str) :
  re_search p s = Some g ->
  exists pre s', s = pre ++ s' /\ match_here p s' = Some g
                 /\ re_search p s' = Some g.
Proof.
  induction s as [|c s IH]; intros E.
  - exists [], []. simpl in *. destruct (match_here p []); auto;
      discriminate.
  - destruct (match_here p (c :: s)) as [g'|] eqn:M.
    + exists [], (c :: s). simpl in E |- *. rewrite M in *. auto.
    + rewrite (re_search_cons _ _ _ M) in E.
      destruct (IH E) as (pre & s' & -> & M' & R').
      exists (c :: pre), s'. auto.
Qed.

Lemma match_here_slash (s g : str) :
  id_group s = Some g -> match_here [lit "v="; lit "/"] (47%N :: s) = Some g.
Proof. intros E. rewrite match_here_first. exact E. Qed.

Lemma match_here_single (p s g : str) :
  match_here [p] s = Some g ->
  exists s', s = p ++ s' /\ id_group s' = Some g.
Proof.
  simpl. destruct (strip_prefix p s) as [s'|] eqn:P; [|discriminate].
  apply strip_prefix_app in P. destruct (id_group s') as [g'|] eqn:G;
    [|discriminate].
  intros E. injection E as <-. eauto.
Qed.

Lemma later_pattern_dead (p : str) (url : str) :
  re_search [lit "v="; lit "/"] url = None ->
  re_search [p ++ [47%N]] url = None.
Proof.
  intros E. destruct (re_search [p ++ [47%N]] url) as [g|] eqn:R;
    [|reflexivity].
  destruct (re_search_some _ _ _ R) as (pre & s & -> & M & _).
  destruct (match_here_single _ _ _ M) as (s' & -> & G).
  replace (pre ++ (p ++ [47%N]) ++ s') with ((pre ++ p) ++ 47%N :: s') in E
    by now rewrite <- !app_assoc.
  apply re_search_none in E. rewrite (match_here_slash _ _ G) in E.
  discriminate.
Qed.

Lemma first_match_first (url : str) :
  first_match patterns url = re_search [lit "v="; lit "/"] url.
Proof.
  unfold patterns. cbn [first_match].
  destruct (re_search [lit "v="; lit "/"] url) as [g|] eqn:R; [reflexivity|].
  rewrite lit_embed, lit_v_slash.
  change [101; 109; 98; 101; 100; 47]%N
    with ([101; 109; 98; 101; 100] ++ [47])%N.
  change [118; 47]%N with ([118] ++ [47])%N.
  now rewrite !(later_pattern_dead _ url R).
Qed.

(** X11.  The second and the third pattern of [extract_video_id] never
    decide: both end in [/] before the identifier, where the first
    pattern matches as well.  The result is that of the first pattern
    alone. *)
Theorem first_pattern_decides (url : str) :
  first_match patterns url = first_match (firstn 1 patterns) url
  /\ (forall g,
        extract_video_id url = Ok g <->
        re_search [lit "v="; lit "/"] url = Some g).
Proof.
  split.
  - rewrite first_match_first. unfold patterns. cbn [firstn first_match].
    now destruct (re_search [lit "v="; lit "/"] url).
  - intros g. unfold extract_video_id. rewrite first_match_first.
    destruct (re_search [lit "v="; lit "/"] url); split; congruence.
Qed.

Lemma match_here_shape (s g : str) :
  match_here [lit "v="; lit "/"] s = Some g <->
  is_video_id g
  /\ exists post, s = lit "v=" ++ g ++ post \/ s = lit "/" ++ g ++ post.
Proof.
  rewrite match_here_first, lit_v_eq, lit_slash. split.
  - destruct s as [|c s']; [discriminate|].
    destruct (N.eqb_spec c 47) as [->|C47].
    + rewrite id_group_spec. intros [V [post ->]]. split; [exact V|].
      exists post. now right.
    + destruct (N.eqb_spec c 118) as [->|C118]; [|discriminate].
      destruct s' as [|d s'']; [discriminate|].
      destruct (N.eqb_spec d 61) as [->|D]; [|discriminate].
      rewrite id_group_spec. intros [V [post ->]]. split; [exact V|].
      exists post. now left.
  - intros [V [post [->| ->]]]; simpl; apply id_group_spec; eauto.
Qed.

(** X12.  [extract_video_id] returns an identifier only from behind a
    [v=] or a [/]: the result is eleven characters of the class
    [[0-9A-Za-z_-]] that follow one of the two in the reference, and a
    reference with such a place never raises. *)
Theorem extract_video_id_shape (url : str) :
  (forall g,
     extract_video_id url = Ok g ->
     is_video_id g
     /\ exists pre post,
          url = pre ++ lit "v=" ++ g ++ post
          \/ url = pre ++ lit "/" ++ g ++ post)
  /\ (forall pre g post,
        is_video_id g ->
        url = pre ++ lit "v=" ++ g ++ post
        \/ url = pre ++ lit "/" ++ g ++ post ->
        exists g', extract_video_id url = Ok g').
Proof.
  unfold extract_video_id. rewrite first_match_first. split.
  - intros g. destruct (re_search [lit "v="; lit "/"] url) as [g'|] eqn:R;
      [|discriminate].
    intros E. injection E as ->.
    destruct (re_search_some _ _ _ R) as (pre & s & -> & M & _).
    apply match_here_shape in M as [V [post S]]. split; [exact V|].
    exists pre, post. destruct S as [-> | ->]; auto.
  - intros pre g post V S.
    destruct (re_search [lit "v="; lit "/"] url) as [g'|] eqn:R; [eauto|].
    exfalso.
    assert (M : exists s, url = pre ++ s
                          /\ match_here [lit "v="; lit "/"] s = Some g).
    { destruct S as [-> | ->]; eexists; (split; [reflexivity|]);
        apply match_here_shape; eauto. }
    destruct M as (s & -> & M). apply re_search_none in R. congruence.
Qed.

Lemma re_search_here (p : pattern) (s g : str) :
  match_here p s = Some g -> re_search p s = Some g.
Proof. intros M. destruct s; simpl in *; now rewrite M. Qed.

Lemma has_non_id_blocks (n : nat) (tl s : str) :
  has_non_id n tl = true ->
  forallb is_id_char (firstn n (tl ++ s)) = false.
Proof.
  revert tl. induction n as [|n IH]; intros tl; [discriminate|].
  destruct tl as [|c tl']; [discriminate|]. simpl.
  destruct (is_id_char c); simpl; [apply IH|reflexivity].
Qed.

Lemma has_non_id_group (tl s : str) :
  has_non_id 11 tl = true -> id_group (tl ++ s) = None.
Proof.
  intros H. unfold id_group. rewrite (has_non_id_blocks 11 tl s H).
  now rewrite andb_false_r.
Qed.

Lemma inert_here_blocks (c : char) (tl s : str) :
  inert_here (c :: tl) = true ->
  match_here [lit "v="; lit "/"] (c :: tl ++ s) = None.
Proof.
  rewrite match_here_first. unfold inert_here.
  destruct (c =? 47)%N; [apply has_non_id_group|].
  destruct (c =? 118)%N; [|reflexivity].
  destruct tl as [|d tl']; [discriminate|]. simpl.
  destruct (d =? 61)%N; [apply has_non_id_group|reflexivity].
Qed.

Lemma inert_skips (pre sep s : str) :
  inert pre sep = true ->
  re_search [lit "v="; lit "/"] (pre ++ sep ++ s)
  = re_search [lit "v="; lit "/"] (sep ++ s).
Proof.
  induction pre as [|c pre IH]; [reflexivity|].
  cbn [inert]. rewrite andb_true_iff. intros [H I].
  change ((c :: pre) ++ sep ++ s) with (c :: pre ++ sep ++ s).
  change ((c :: pre) ++ sep) with (c :: pre ++ sep) in H.
  pose proof (inert_here_blocks c (pre ++ sep) s H) as M.
  rewrite <- app_assoc in M.
  rewrite (re_search_cons _ _ _ M). exact (IH I).
Qed.

Lemma separator_then_id (pre sep g rest : str) :
  inert pre sep = true ->
  sep = lit "v=" \/ sep = lit "/" ->
  is_video_id g ->
  extract_video_id (pre ++ sep ++ g ++ rest) = Ok g.
Proof.
  intros I S V. unfold extract_video_id.
  rewrite first_match_first, (inert_skips pre sep _ I).
  rewrite (re_search_here _ _ g); [reflexivity|].
  apply match_here_shape. split; [exact V|]. exists rest.
  destruct S as [-> | ->]; auto.
Qed.

(** X13.  The references of a video parse back to its identifier: for an
    identifier [g] and whatever follows it, the watch reference that the
    video search builds, the short reference and the embed reference the
    player builds all give [g]. *)
Theorem canonical_references_parse (g rest : str) :
  is_video_id g ->
  extract_video_id (lit "https://www.youtube.com/watch?v=" ++ g ++ rest)
  = Ok g
  /\ extract_video_id (lit "https://youtu.be/" ++ g ++ rest) = Ok g
  /\ extract_video_id (lit "https://www.youtube.com/embed/" ++ g ++ rest)
     = Ok g.
Proof.
  intros V.
  assert (W : lit "https://www.youtube.com/watch?v="
              = lit "https://www.youtube.com/watch?" ++ lit "v=")
    by (vm_compute; reflexivity).
  assert (B : lit "https://youtu.be/" = lit "https://youtu.be" ++ lit "/")
    by (vm_compute; reflexivity).
  assert (E : lit "https://www.youtube.com/embed/"
              = lit "https://www.youtube.com/embed" ++ lit "/")
    by (vm_compute; reflexivity).
  rewrite W, B, E, <- !app_assoc.
  split; [|split]; apply separator_then_id; auto; vm_compute; reflexivity.
Qed.

(** ** Decimal numerals *)

Lemma lit_cons (c : ascii) (s : string) :
  (N_of_ascii c < 128)%N -> lit (String c s) = N_of_ascii c :: lit s.
Proof.
  intros H. unfold lit. cbn [list_ascii_of_string map List.length utf8_decode].
  apply N.ltb_lt in H. now rewrite H.
Qed.

Lemma lit_digits (d : Decimal.uint) :
  lit (NilEmpty.string_of_uint d) = digit_codes d.
Proof.
  induction d; cbn [NilEmpty.string_of_uint digit_codes];
    [reflexivity|..]; (rewrite lit_cons; [now rewrite IHd|reflexivity]).
Qed.

Lemma digit_codes_digits (d : Decimal.uint) :
  forallb is_ascii_digit (digit_codes d) = true.
Proof. induction d; simpl; auto. Qed.

Lemma decimal_codes (n : Z) :
  (0 <= n)%Z ->
  exists d, d <> Decimal.Nil /\ decimal n = digit_codes d
            /\ Z.of_N (Pos.of_uint d) = n.
Proof.
  intros H. unfold decimal. destruct n as [|p|p]; [| |lia].
  - exists (Decimal.D0 Decimal.Nil). split; [discriminate|].
    split; [vm_compute|]; reflexivity.
  - exists (Pos.to_uint p).
    pose proof (DecimalPos.Unsigned.to_uint_nonnil p) as NN.
    split; [exact NN|]. split.
    + cbn [Z.to_int NilZero.string_of_int]. unfold NilZero.string_of_uint.
      rewrite <- lit_digits. now destruct (Pos.to_uint p).
    + now rewrite DecimalPos.Unsigned.of_to.
Qed.

Lemma decimal_digits (n : Z) :
  (0 <= n)%Z ->
  decimal n <> [] /\ forallb is_ascii_digit (decimal n) = true.
Proof.
  intros H. destruct (decimal_codes n H) as (d & NN & -> & _).
  split; [|apply digit_codes_digits]. now destruct d.
Qed.

Lemma digits_value_acc (d : Decimal.uint) (acc : positive) (rest : str) :
  match rest with c :: _ => is_ascii_digit c = false | [] => True end ->
  digits_value (Z.pos acc) (digit_codes d ++ rest)
  = Z.pos (Pos.of_uint_acc d acc).
Proof.
  intros R. revert acc.
  induction d; intros acc; cbn [digit_codes Pos.of_uint_acc app];
    [destruct rest as [|c rest]; simpl; [reflexivity|now rewrite R]|..];
    cbn [digits_value]; change (is_ascii_digit _) with true; cbv iota;
    rewrite <- IHd; f_equal; lia.
Qed.

Lemma digits_value_codes (d : Decimal.uint) (rest : str) :
  match rest with c :: _ => is_ascii_digit c = false | [] => True end ->
  digits_value 0 (digit_codes d ++ rest) = Z.of_N (Pos.of_uint d).
Proof.
  intros R.
  induction d; cbn [digit_codes Pos.of_uint app];
    [destruct rest as [|c rest]; simpl; [reflexivity|now rewrite R]|..];
    cbn [digits_value]; change (is_ascii_digit _) with true; cbv iota;
    [exact IHd|..];
    match goal with
    | |- digits_value ?a _ = _ =>
        change a with (Z.pos (Z.to_pos a))
    end; rewrite (digits_value_acc _ _ _ R); reflexivity.
Qed.

(** ** Replay references without an earlier time *)

Lemma lit_t_eq : lit "t=" = [116; 61]%N.
Proof. vm_compute. reflexivity. Qed.

Lemma strip_t_app (s tail : str) (c : char) :
  c <> 116%N -> c <> 61%N ->
  strip_prefix (lit "t=") (s ++ c :: tail)
  = match strip_prefix (lit "t=") s with
    | Some ds => Some (ds ++ c :: tail)
    | None => None
    end.
Proof.
  intros C1 C2. rewrite lit_t_eq.
  destruct s as [|x [|y s]]; cbn [app strip_prefix].
  - now rewrite (proj2 (N.eqb_neq 116 c)) by congruence.
  - destruct (116 =? x)%N; [|reflexivity].
    now rewrite (proj2 (N.eqb_neq 61 c)) by congruence.
  - destruct (116 =? x)%N; [|reflexivity]. now destruct (61 =? y)%N.
Qed.

Lemma count_digits_zero_app (unicode_Nd : char -> bool) (ds tail : str)
    (c : char) :
  re_digit unicode_Nd c = false ->
  count_digits unicode_Nd ds = O ->
  count_digits unicode_Nd (ds ++ c :: tail) = O.
Proof.
  intros C. destruct ds as [|d ds]; simpl; [now rewrite C|].
  now destruct (re_digit unicode_Nd d).
Qed.

Lemma timestamp_here_app (unicode_Nd : char -> bool) (s tail : str)
    (c : char) :
  c <> 116%N -> c <> 61%N -> re_digit unicode_Nd c = false ->
  timestamp_here unicode_Nd s = None ->
  timestamp_here unicode_Nd (s ++ c :: tail) = None.
Proof.
  intros C1 C2 C3. unfold timestamp_here. rewrite (strip_t_app s tail c C1 C2).
  destruct (strip_prefix (lit "t=") s) as [ds|]; [|reflexivity].
  destruct (count_digits unicode_Nd ds) eqn:D; [|discriminate].
  intros _. now rewrite (count_digits_zero_app unicode_Nd ds tail c C3 D).
Qed.

Lemma extract_timestamp_none (unicode_Nd : char -> bool) (pre s : str) :
  extract_timestamp unicode_Nd (pre ++ s) = None ->
  timestamp_here unicode_Nd s = None.
Proof.
  induction pre as [|c pre IH]; cbn [app extract_timestamp].
  - destruct s; cbn [extract_timestamp];
      now destruct (timestamp_here unicode_Nd _).
  - destruct (timestamp_here unicode_Nd (c :: pre ++ s)); [discriminate|].
    exact IH.
Qed.

Lemma extract_timestamp_tail (unicode_Nd : char -> bool) (c : char)
    (s : str) :
  extract_timestamp unicode_Nd (c :: s) = None ->
  extract_timestamp unicode_Nd s = None.
Proof.
  cbn [extract_timestamp].
  now destruct (timestamp_here unicode_Nd (c :: s)).
Qed.

Lemma count_digits_ascii (unicode_Nd : char -> bool) (ds rest : str) :
  forallb is_ascii_digit ds = true ->
  match rest with
  | c :: _ => re_digit unicode_Nd c = false
  | [] => True
  end ->
  count_digits unicode_Nd (ds ++ rest) = List.length ds.
Proof.
  intros D R. induction ds as [|d ds IH]; cbn [app count_digits List.length].
  - destruct rest as [|c rest]; [reflexivity|]. cbn [count_digits].
    now rewrite R.
  - cbn [forallb] in D. apply andb_true_iff in D as [D1 D2].
    assert (RD : re_digit unicode_Nd d = true).
    { unfold re_digit. rewrite D1. unfold is_ascii_digit in D1.
      apply andb_true_iff in D1 as [_ D1]. apply N.leb_le in D1.
      assert (L : (d <? 128)%N = true) by (apply N.ltb_lt; lia).
      now rewrite L. }
    rewrite RD. f_equal. exact (IH D2).
Qed.

Lemma marker_length_none (unicode_Nd : char -> bool) (key kp s : str) :
  key ++ lit "=" = kp ++ lit "t=" ->
  extract_timestamp unicode_Nd s = None ->
  marker_length unicode_Nd key s = None.
Proof.
  intros K E. unfold marker_length. destruct s as [|c s']; [reflexivity|].
  destruct (is_amp_or_hash c); [|reflexivity]. rewrite K.
  destruct (strip_prefix (kp ++ lit "t=") s') as [ds|] eqn:P; [|reflexivity].
  apply strip_prefix_app in P. subst s'.
  replace (c :: (kp ++ lit "t=") ++ ds)
    with ((c :: kp) ++ lit "t=" ++ ds) in E
    by now rewrite <- app_assoc.
  apply extract_timestamp_none in E. unfold timestamp_here in E.
  assert (S : strip_prefix (lit "t=") (lit "t=" ++ ds) = Some ds)
    by now apply strip_prefix_app.
  rewrite S in E. now destruct (count_digits unicode_Nd ds).
Qed.

Lemma remove_markers_none (unicode_Nd : char -> bool) (key kp s : str) :
  key ++ lit "=" = kp ++ lit "t=" ->
  extract_timestamp unicode_Nd s = None ->
  remove_markers unicode_Nd key O s = s.
Proof.
  intros K. induction s as [|c s IH]; intros E; [reflexivity|].
  cbn [remove_markers].
  rewrite (marker_length_none unicode_Nd key kp (c :: s) K E).
  f_equal. apply IH. exact (extract_timestamp_tail unicode_Nd c s E).
Qed.

Lemma create_timestamp_url_fresh (unicode_Nd : char -> bool)
    (video_url : str) (start_time : float) (n : Z) :
  extract_timestamp unicode_Nd video_url = None ->
  int_of_float start_time = Ok n ->
  create_timestamp_url unicode_Nd video_url start_time
  = Ok (video_url
        ++ (if contains (lit "?") video_url then lit "&" else lit "?")
        ++ lit "t=" ++ decimal n ++ lit "s").
Proof.
  intros E I. unfold create_timestamp_url. rewrite I. cbn [bind].
  assert (R : remove_markers unicode_Nd (lit "start") O
                (remove_markers unicode_Nd (lit "t") O video_url)
              = video_url).
  { rewrite (remove_markers_none unicode_Nd (lit "t") [] video_url);
      [|vm_compute; reflexivity|exact E].
    apply (remove_markers_none unicode_Nd (lit "start") (lit "star"));
      [vm_compute; reflexivity|exact E]. }
  rewrite R. now destruct (_ || _).
Qed.

Lemma extract_timestamp_appended (unicode_Nd : char -> bool)
    (url ds rest : str) (c : char) :
  c <> 116%N -> c <> 61%N -> re_digit unicode_Nd c = false ->
  ds <> [] -> forallb is_ascii_digit ds = true ->
  match rest with
  | x :: _ => re_digit unicode_Nd x = false
  | [] => True
  end ->
  extract_timestamp unicode_Nd url = None ->
  extract_timestamp unicode_Nd (url ++ c :: lit "t=" ++ ds ++ rest)
  = Some ds.
Proof.
  intros C1 C2 C3 N D R. induction url as [|x url IH]; intros E.
  - cbn [app]. assert (H : timestamp_here unicode_Nd
                             (c :: lit "t=" ++ ds ++ rest) = None).
    { unfold timestamp_here. rewrite lit_t_eq. cbn [strip_prefix].
      now rewrite (proj2 (N.eqb_neq 116 c)) by congruence. }
    cbn [extract_timestamp]. rewrite H.
    assert (T : timestamp_here unicode_Nd (lit "t=" ++ ds ++ rest) = Some ds).
    { unfold timestamp_here.
      rewrite (proj2 (strip_prefix_app (lit "t=") _ (ds ++ rest)) eq_refl).
      rewrite (count_digits_ascii unicode_Nd ds rest D R).
      destruct ds as [|d ds']; [now elim N|].
      cbn [List.length]. f_equal.
      change (S (List.length ds')) with (List.length (d :: ds')).
      rewrite firstn_app, firstn_all, Nat.sub_diag. cbn [firstn].
      apply app_nil_r. }
    rewrite lit_t_eq in T |- *. cbn [app] in T |- *.
    cbn [extract_timestamp]. now rewrite T.
  - pose proof (extract_timestamp_none unicode_Nd [] (x :: url) E) as H.
    pose proof (timestamp_here_app unicode_Nd (x :: url)
                  (lit "t=" ++ ds ++ rest) c C1 C2 C3 H) as H'.
    cbn [app] in H' |- *. cbn [extract_timestamp]. rewrite H'.
    apply IH. exact (extract_timestamp_tail unicode_Nd x url E).
Qed.

Lemma id_group_app_none (s tail : str) (c : char) :
  is_id_char c = false ->
  id_group s = None -> id_group (s ++ c :: tail) = None.
Proof.
  intros C. unfold id_group. rewrite firstn_app.
  destruct (Nat.le_gt_cases 11 (List.length s)) as [L|L].
  - replace (11 - List.length s)%nat with O by lia. cbn [firstn].
    now rewrite app_nil_r.
  - intros _. rewrite (firstn_all2 s) by lia.
    destruct (11 - List.length s)%nat as [|k] eqn:K; [lia|].
    cbn [firstn]. rewrite forallb_app. cbn [forallb]. rewrite C.
    now rewrite andb_false_r, andb_false_r.
Qed.

Lemma match_here_app_none (x : char) (s tail : str) (c : char) :
  is_id_char c = false -> c <> 61%N ->
  match_here [lit "v="; lit "/"] (x :: s) = None ->
  match_here [lit "v="; lit "/"] (x :: s ++ c :: tail) = None.
Proof.
  intros C1 C2. rewrite !match_here_first.
  destruct (x =? 47)%N; [now apply id_group_app_none|].
  destruct (x =? 118)%N; [|reflexivity].
  destruct s as [|y s]; cbn [app].
  - intros _. now rewrite (proj2 (N.eqb_neq c 61) C2).
  - destruct (y =? 61)%N; [now apply id_group_app_none|reflexivity].
Qed.

Lemma match_here_app_some (s tail g : str) :
  match_here [lit "v="; lit "/"] s = Some g ->
  match_here [lit "v="; lit "/"] (s ++ tail) = Some g.
Proof.
  rewrite !match_here_shape. intros [V [post S]]. split; [exact V|].
  exists (post ++ tail).
  destruct S as [-> | ->]; [left|right]; now rewrite <- !app_assoc.
Qed.

Lemma re_search_app (url tail g : str) (c : char) :
  is_id_char c = false -> c <> 61%N ->
  re_search [lit "v="; lit "/"] url = Some g ->
  re_search [lit "v="; lit "/"] (url ++ c :: tail) = Some g.
Proof.
  intros C1 C2. induction url as [|x url IH]; intros R.
  - cbn [re_search] in R. rewrite match_here_first in R. discriminate.
  - destruct (match_here [lit "v="; lit "/"] (x :: url)) as [g'|] eqn:M.
    + assert (g' = g) as ->.
      { cbn [re_search] in R. rewrite M in R. congruence. }
      apply re_search_here. exact (match_here_app_some _ _ _ M).
    + rewrite (re_search_cons _ _ _ M) in R.
      pose proof (match_here_app_none x url tail c C1 C2 M) as M'.
      cbn [app]. rewrite (re_search_cons _ _ _ M').
      exact (IH R).
Qed.

Lemma time_markers_fresh (unicode_Nd : char -> bool) (url tail : str)
    (c : char) :
  c <> 116%N -> c <> 61%N -> re_digit unicode_Nd c = false ->
  is_ascii_digit c = false ->
  extract_timestamp unicode_Nd url = None ->
  time_markers (url ++ c :: tail) = time_markers (c :: tail).
Proof.
  intros C1 C2 C3 C4. induction url as [|x url IH]; intros E; [reflexivity|].
  cbn [app time_markers].
  rewrite (IH (extract_timestamp_tail unicode_Nd x url E)).
  destruct (is_amp_or_hash x || (x =? 63)%N); [|reflexivity].
  rewrite (strip_t_app url tail c C1 C2).
  destruct (strip_prefix (lit "t=") url) as [ds|] eqn:P; [|reflexivity].
  apply strip_prefix_app in P. subst url.
  replace (x :: lit "t=" ++ ds) with ([x] ++ lit "t=" ++ ds) in E
    by reflexivity.
  apply extract_timestamp_none in E. unfold timestamp_here in E.
  rewrite (proj2 (strip_prefix_app (lit "t=") _ ds) eq_refl) in E.
  destruct ds as [|d ds]; cbn [app]; [now rewrite C4|].
  cbn [count_digits] in E. destruct (re_digit unicode_Nd d) eqn:RD;
    [discriminate|].
  assert (AD : is_ascii_digit d = false).
  { unfold re_digit in RD. destruct (d <? 128)%N eqn:L; [exact RD|].
    unfold is_ascii_digit. apply N.ltb_ge in L.
    rewrite (proj2 (N.leb_gt d 57)) by lia. apply andb_false_r. }
  now rewrite AD.
Qed.




Lemma extract_video_id_search (url g : str) :
  extract_video_id url = Ok g <->
  re_search [lit "v="; lit "/"] url = Some g.
Proof.
  unfold extract_video_id. rewrite first_match_first.
  destruct (re_search [lit "v="; lit "/"] url); split; congruence.
Qed.

Lemma extract_video_id_is_id (url g : str) :
  extract_video_id url = Ok g -> is_video_id g.
Proof.
  rewrite extract_video_id_search. intros R.
  destruct (re_search_some _ _ _ R) as (pre & s & _ & M & _).
  now apply match_here_shape in M.
Qed.

(** X15.  The replay reference of a search result plays the right video
    from the right second in the web-view player.  For a stored reference
    that parses to the identifier [g] and in which no [t=] is followed by
    a digit, and a start time whose integer part [n] is not negative,
    the player's [load_video] on the reference that
    [create_timestamp_url] builds embeds video [g] with [start=n]. *)
Theorem replay_reference_plays (unicode_Nd : char -> bool)
    (video_url : str) (start_time : float) (g : str) (n : Z) :
  extract_video_id video_url = Ok g ->
  extract_timestamp unicode_Nd video_url = None ->
  int_of_float start_time = Ok n ->
  (0 <= n)%Z ->
  exists timestamp_url,
    create_timestamp_url unicode_Nd video_url start_time = Ok timestamp_url
    /\ load_video unicode_Nd timestamp_url
       = Some (lit "https://www.youtube.com/embed/" ++ g
               ++ lit "?start=" ++ decimal n ++ lit "&autoplay=1").
Proof.
  intros X E I P.
  assert (T : forall c : char,
             c = 38%N \/ c = 63%N ->
             load_video unicode_Nd
               (video_url ++ c :: lit "t=" ++ decimal n ++ lit "s")
             = Some (lit "https://www.youtube.com/embed/" ++ g
                     ++ lit "?start=" ++ decimal n ++ lit "&autoplay=1")).
  { intros c C. unfold load_video. rewrite first_match_first.
    rewrite (re_search_app video_url _ g c);
      [|destruct C as [-> | ->]; try discriminate; reflexivity..
       |now apply extract_video_id_search].
    destruct (extract_video_id_is_id _ _ X) as [L _].
    destruct g as [|g0 g']; [discriminate|].
    destruct (decimal_digits n P) as [NE D].
    rewrite (extract_timestamp_appended unicode_Nd video_url (decimal n)
               (lit "s") c);
      [|destruct C as [-> | ->]; try discriminate; reflexivity..
       |exact NE|exact D|reflexivity|exact E].
    destruct (decimal n); [now elim NE|]. now rewrite <- app_assoc. }
  rewrite (create_timestamp_url_fresh unicode_Nd _ _ _ E I).
  eexists. split; [reflexivity|].
  destruct (contains (lit "?") video_url).
  - exact (T 38%N (or_introl eq_refl)).
  - exact (T 63%N (or_intror eq_refl)).
Qed.

(** ** Search Engine: which rows a search returns *)

Lemma like_star (p s : str) :
  like (37%N :: p) s
  = like p s || match s with [] => false | _ :: s' => like (37%N :: p) s' end.
Proof. destruct s; reflexivity. Qed.

Lemma like_cons (c : char) (p s : str) :
  c <> 37%N ->
  like (c :: p) s
  = match s with
    | [] => false
    | d :: s' =>
        ((c =? 95)%N || (ascii_lower c =? ascii_lower d)%N) && like p s'
    end.
Proof.
  intros C. cbn [like]. now rewrite (proj2 (N.eqb_neq c 37) C).
Qed.

Lemma like_percent (p s : str) :
  like (37%N :: p) s = true <->
  exists pre post, s = pre ++ post /\ like p post = true.
Proof.
  induction s as [|d s IH]; rewrite like_star, orb_true_iff.
  - split.
    + intros [H|H]; [|discriminate]. now exists [], [].
    + intros (pre & post & E & H). left.
      symmetry in E. apply app_eq_nil in E as [-> ->]. exact H.
  - rewrite IH. split.
    + intros [H|(pre & post & -> & H)].
      * now exists [], (d :: s).
      * now exists (d :: pre), post.
    + intros (pre & post & E & H). destruct pre as [|x pre].
      * left. simpl in E. now subst post.
      * right. injection E as -> ->. eauto.
Qed.

Lemma like_any (s : str) : like [37%N] s = true.
Proof. apply like_percent. exists s, []. now rewrite app_nil_r. Qed.

Lemma like_plain (word p s : str) :
  plain word ->
  like (word ++ p) s = true <->
  exists mid post,
    s = mid ++ post /\ map ascii_lower mid = map ascii_lower word
    /\ like p post = true.
Proof.
  intros [P1 P2]. revert s. induction word as [|c word IH]; intros s.
  - cbn [app map]. split.
    + intros H. now exists [], s.
    + intros (mid & post & -> & E & H). destruct mid; [exact H|discriminate].
  - assert (C1 : c <> 37%N) by (intros ->; apply P1; now left).
    assert (C2 : (c =? 95)%N = false)
      by (apply N.eqb_neq; intros ->; apply P2; now left).
    assert (Q1 : ~ In 37%N word) by (intros H; apply P1; now right).
    assert (Q2 : ~ In 95%N word) by (intros H; apply P2; now right).
    cbn [app]. rewrite (like_cons c _ s C1), C2. cbn [orb].
    destruct s as [|d s].
    + split; [discriminate|]. intros (mid & post & E & M & _).
      destruct mid; discriminate.
    + rewrite andb_true_iff, (IH Q1 Q2 s), N.eqb_eq. split.
      * intros [L (mid & post & -> & M & H)]. exists (d :: mid), post.
        cbn [map app]. rewrite M, L. auto.
      * intros (mid & post & E & M & H). destruct mid as [|x mid];
          [discriminate|].
        cbn [map app] in *. injection E as -> ->. injection M as L M.
        split; [now symmetry|]. eauto.
Qed.

Lemma c_string_nul_free (s : str) : nul_free s -> c_string s = s.
Proof.
  unfold nul_free. induction s as [|c s IH]; intros H; [reflexivity|].
  cbn [c_string]. rewrite (proj2 (N.eqb_neq c 0)).
  - f_equal. apply IH. intros I. apply H. now right.
  - intros ->. apply H. now left.
Qed.

Lemma substring_pattern (word : str) :
  nul_free word ->
  c_string (lit "%" ++ word ++ lit "%") = 37%N :: word ++ [37%N].
Proof.
  intros H. apply c_string_nul_free. unfold nul_free in *.
  change (lit "%") with [37%N]. cbn [app]. intros [E|I]; [discriminate|].
  apply in_app_or in I as [I|[E|[]]]; [auto|discriminate].
Qed.

Lemma sql_like_occurs (word text : str) :
  plain word -> nul_free word -> nul_free text ->
  sql_like text (lit "%" ++ word ++ lit "%") = true <-> occurs_in word text.
Proof.
  intros P N T. unfold sql_like, occurs_in.
  rewrite (substring_pattern word N), (c_string_nul_free text T), like_percent.
  split.
  - intros (pre & s & -> & H). apply (like_plain word _ s P) in H
      as (mid & post & -> & M & _). eauto.
  - intros (pre & mid & post & -> & M). exists pre, (mid ++ post).
    split; [reflexivity|]. apply (like_plain word _ _ P).
    exists mid, post. split; [reflexivity|]. split; [exact M|apply like_any].
Qed.

Lemma search_result_row (unicode_Nd : char -> bool) (r : row)
    (res : Result.t) :
  search_result unicode_Nd r = Ok res ->
  row_of res = r
  /\ create_timestamp_url unicode_Nd (video_url r) (start_time r)
     = Ok (Result.timestamp_url res).
Proof.
  unfold search_result.
  destruct (create_timestamp_url unicode_Nd (video_url r) (start_time r))
    as [u|e]; [|discriminate].
  cbn [bind]. intros E. injection E as <-. split; [|reflexivity].
  now destruct r.
Qed.

Lemma for_each_rows (unicode_Nd : char -> bool) (rows : list row) :
  forall rs,
    for_each (search_result unicode_Nd) rows = Ok rs ->
    Forall2 (fun r res => search_result unicode_Nd r = Ok res) rows rs
    /\ map row_of rs = rows.
Proof.
  induction rows as [|r rows IH]; intros rs; cbn [for_each].
  - intros E. injection E as <-. auto.
  - destruct (search_result unicode_Nd r) as [res|e] eqn:S; [|discriminate].
    cbn [bind].
    destruct (for_each (search_result unicode_Nd) rows) as [rs'|e];
      [|discriminate].
    cbn [bind]. intros E. injection E as <-.
    destruct (IH rs' eq_refl) as [F M]. split; [now constructor|].
    cbn [map]. rewrite M. f_equal. exact (proj1 (search_result_row _ _ _ S)).
Qed.

Lemma sql_limit_in {A} (n : Z) (l : list A) (x : A) :
  In x (sql_limit n l) -> In x l.
Proof.
  unfold sql_limit. destruct (n <? 0)%Z; [auto|]. apply In_firstn.
Qed.

Lemma sql_limit_not_cut {A} (n : Z) (l : list A) :
  not_cut n (sql_limit n l) -> sql_limit n l = l.
Proof.
  unfold not_cut, sql_limit. destruct (Z.ltb_spec n 0) as [L|L];
    [reflexivity|].
  intros [H|H]; [lia|]. rewrite length_firstn in H.
  apply firstn_all2. lia.
Qed.

(** The common shape of both searches, read from its results. *)
Lemma query_rows (unicode_Nd : char -> bool) (p : row -> bool) (n : Z)
    (t : table) (rs : list Result.t) :
  for_each (search_result unicode_Nd)
    (sql_limit n (sort_by by_video_then_start (filter p t))) = Ok rs ->
  (forall res, In res rs -> In (row_of res) t /\ p (row_of res) = true)
  /\ (not_cut n rs ->
      forall r, In r t -> p r = true ->
                exists res, In res rs
                            /\ search_result unicode_Nd r = Ok res).
Proof.
  intros E. destruct (for_each_rows unicode_Nd _ rs E) as [F M]. split.
  - intros res I. apply (in_map row_of) in I. rewrite M in I.
    apply sql_limit_in in I.
    apply (Permutation_in _ (sort_by_perm by_video_then_start _)) in I.
    now apply filter_In in I.
  - intros NC r I P.
    assert (L : List.length rs
                = List.length (sql_limit n (sort_by by_video_then_start
                                              (filter p t))))
      by (symmetry; exact (Forall2_length F)).
    unfold not_cut in NC. rewrite L in NC.
    rewrite (sql_limit_not_cut n _ NC) in F.
    assert (I' : In r (sort_by by_video_then_start (filter p t))).
    { apply (Permutation_in _ (Permutation_sym
                                 (sort_by_perm by_video_then_start _))).
      apply filter_In. auto. }
    clear -F I'. induction F as [|a b l bs Hab F IH]; [contradiction|].
    destruct I' as [->|I'].
    + exists b. split; [now left|exact Hab].
    + destruct (IH I') as (res & I & S). exists res. split; [now right|auto].
Qed.

(** X16.  What the substring search returns.  For a word without [%], [_]
    and NUL, on a table whose texts have no NUL, every result of
    [search_word_in_subtitles] shows a stored row in whose text the word
    occurs, up to the case of ASCII letters; and when the limit did not
    cut the results, every such row is shown. *)
Theorem substring_search_finds_occurrences (unicode_Nd : char -> bool)
    (search_word : str) (exact_match : option bool) (limit : option Z)
    (t : table) (rs : list Result.t) :
  within_like_limit search_word ->
  plain search_word -> nul_free search_word ->
  Forall (fun r => nul_free (japanese_text r)) t ->
  default false exact_match = false ->
  search_word_in_subtitles unicode_Nd search_word exact_match limit t
  = Ok rs ->
  (forall res,
     In res rs ->
     In (row_of res) t /\ occurs_in search_word (Result.japanese_text res))
  /\ (not_cut (default 20%Z limit) rs ->
      forall r,
        In r t -> occurs_in search_word (japanese_text r) ->
        In r (map row_of rs)).
Proof.
  intros _ P N T X. unfold search_word_in_subtitles. rewrite X. intros E.
  apply query_rows in E as [Sound Complete]. split.
  - intros res I. destruct (Sound res I) as [R L]. split; [exact R|].
    apply (sql_like_occurs search_word _ P N) in L; [exact L|].
    exact (proj1 (Forall_forall _ t) T _ R).
  - intros NC r I O.
    destruct (Complete NC r I) as (res & I' & S).
    + apply (sql_like_occurs search_word _ P N); [|exact O].
      exact (proj1 (Forall_forall _ t) T _ I).
    + rewrite <- (proj1 (search_result_row _ _ _ S)). now apply in_map.
Qed.

Lemma like_self (w : str) :
  like (c_string (w ++ [37%N])) (c_string w) = true.
Proof.
  induction w as [|c w IH]; [reflexivity|].
  cbn [app c_string]. destruct (c =? 0)%N; [reflexivity|].
  destruct (N.eqb_spec c 37) as [->|C].
  - rewrite like_star, (like_star _ (c_string w)), IH.
    now rewrite orb_true_r.
  - rewrite (like_cons c _ _ C), N.eqb_refl, orb_true_r. exact IH.
Qed.

Lemma sql_like_self (w : str) :
  sql_like w (lit "%" ++ w ++ lit "%") = true.
Proof.
  unfold sql_like. change (lit "%") with [37%N]. cbn [app c_string N.eqb].
  rewrite like_star, like_self. reflexivity.
Qed.

(** X17.  The exact search is a special case of the substring search:
    every result of [search_word_in_subtitles] with [exact_match] is a
    result without it, for the same word, when the limit did not cut the
    results of the latter. *)
Theorem exact_results_among_substring_results (unicode_Nd : char -> bool)
    (search_word : str) (exact_match : option bool) (limit1 limit2 : option Z)
    (t : table) (rs1 rs2 : list Result.t) :
  within_like_limit search_word ->
  default false exact_match = false ->
  search_word_in_subtitles unicode_Nd search_word (Some true) limit1 t
  = Ok rs1 ->
  search_word_in_subtitles unicode_Nd search_word exact_match limit2 t
  = Ok rs2 ->
  not_cut (default 20%Z limit2) rs2 ->
  incl rs1 rs2.
Proof.
  intros _ X. unfold search_word_in_subtitles. rewrite X. cbn [default].
  intros E1 E2 NC res I.
  destruct (for_each_rows unicode_Nd _ rs1 E1) as [F1 _].
  apply query_rows in E1 as [Sound _]. apply query_rows in E2 as [_ Complete].
  destruct (Sound res I) as [R Q]. apply str_eqb_eq in Q.
  destruct (Complete NC (row_of res) R) as (res' & I' & S').
  - rewrite Q. apply sql_like_self.
  - assert (S : search_result unicode_Nd (row_of res) = Ok res).
    { clear -F1 I. induction F1 as [|a b l bs Hab F IH]; [contradiction|].
      destruct I as [->|I]; [|auto].
      now rewrite (proj1 (search_result_row _ _ _ Hab)). }
    congruence.
Qed.

(** X18.  [advanced_search] returns only rows that pass every filter in
    force: each result shows a stored row whose text matches the term,
    whose duration is at least a non-zero ['min_duration'] and at most a
    non-zero ['max_duration'], whose video is in a non-empty
    ['video_ids'], and whose text is longer than five characters under
    ['exclude_short']. *)
Theorem advanced_search_respects_filters (unicode_Nd : char -> bool)
    (search_term : str) (f : Filters.t) (t : table) (rs : list Result.t) :
  within_like_limit search_term ->
  advanced_search unicode_Nd search_term (Some f) t = Ok rs ->
  forall res,
    In res rs ->
    In (row_of res) t
    /\ sql_like (Result.japanese_text res)
         (lit "%" ++ search_term ++ lit "%") = true
    /\ (forall m,
          Filters.min_duration f = Some m -> truthy_float m = true ->
          (m <=? Result.duration res)%float = true)
    /\ (forall m,
          Filters.max_duration f = Some m -> truthy_float m = true ->
          (Result.duration res <=? m)%float = true)
    /\ (forall ids,
          Filters.video_ids f = Some ids -> ids <> [] ->
          In (Result.video_id res) ids)
    /\ (Filters.exclude_short f = Some true ->
        (5 < sql_length (Result.japanese_text res))%Z).
Proof.
  intros _ E res I. unfold advanced_search in E.
  apply query_rows in E as [Sound _]. destruct (Sound res I) as [R Q].
  apply andb_true_iff in Q as [L C]. split; [exact R|]. split; [exact L|].
  rewrite forallb_forall in C. unfold conditions in C.
  split; [|split; [|split]].
  - intros m M T. apply (C (fun r => (m <=? duration r)%float)).
    rewrite M. cbn [get_truthy]. rewrite T. now left.
  - intros m M T. apply (C (fun r => (duration r <=? m)%float)).
    rewrite M. cbn [get_truthy]. rewrite T.
    apply in_or_app. right. now left.
  - intros ids M NE.
    assert (H : existsb (str_eqb (video_id (row_of res))) ids = true).
    { apply (C (fun r => existsb (str_eqb (video_id r)) ids)).
      rewrite M. cbn [get_truthy].
      destruct ids as [|i ids]; [now elim NE|]. cbn [truthy_list].
      apply in_or_app. right. apply in_or_app. right. now left. }
    apply existsb_exists in H as (i & Hi & Ei). apply str_eqb_eq in Ei.
    cbn [row_of video_id] in Ei. now rewrite Ei.
  - intros M.
    assert (H : (sql_length (japanese_text (row_of res)) >? 5)%Z = true).
    { apply (C (fun r => (sql_length (japanese_text r) >? 5)%Z)).
      rewrite M. cbn [get_truthy].
      apply in_or_app. right. apply in_or_app. right.
      apply in_or_app. right. now left. }
    cbn [row_of japanese_text] in H. lia.
Qed.




(** ** Replay references for a negative time *)

Lemma decimal_negative (n : Z) :
  (n < 0)%Z ->
  exists d, decimal n = 45%N :: digit_codes d.
Proof.
  intros H. unfold decimal. destruct n as [|p|p]; try lia.
  exists (Pos.to_uint p).
  cbn [Z.to_int NilZero.string_of_int].
  rewrite lit_cons by (vm_compute; reflexivity).
  change (N_of_ascii "-") with 45%N. f_equal.
  unfold NilZero.string_of_uint.
  pose proof (DecimalPos.Unsigned.to_uint_nonnil p) as NN.
  rewrite <- lit_digits. now destruct (Pos.to_uint p).
Qed.

Lemma timestamp_here_letter (unicode_Nd : char -> bool) (c : char)
    (s : str) :
  c <> 116%N -> timestamp_here unicode_Nd (c :: s) = None.
Proof.
  intros C. unfold timestamp_here. rewrite lit_t_eq. cbn [strip_prefix].
  now rewrite (proj2 (N.eqb_neq 116 c)) by congruence.
Qed.

Lemma extract_timestamp_no_t (unicode_Nd : char -> bool) (s : str) :
  ~ In 116%N s -> extract_timestamp unicode_Nd s = None.
Proof.
  induction s as [|c s IH]; intros H; [reflexivity|].
  cbn [extract_timestamp]. rewrite timestamp_here_letter.
  - apply IH. intros I. apply H. now right.
  - intros ->. apply H. now left.
Qed.

Lemma extract_timestamp_minus (unicode_Nd : char -> bool) (s : str) :
  ~ In 116%N s ->
  extract_timestamp unicode_Nd (lit "t=" ++ 45%N :: s) = None.
Proof.
  intros NT.
  assert (H : timestamp_here unicode_Nd (lit "t=" ++ 45%N :: s) = None).
  { unfold timestamp_here.
    rewrite (proj2 (strip_prefix_app (lit "t=") _ (45%N :: s)) eq_refl).
    cbn [count_digits]. change (re_digit unicode_Nd 45%N) with false.
    reflexivity. }
  rewrite lit_t_eq in *. cbn [app] in *. cbn [extract_timestamp].
  rewrite H. cbn [extract_timestamp].
  rewrite !timestamp_here_letter by discriminate.
  exact (extract_timestamp_no_t unicode_Nd s NT).
Qed.

Lemma digits_no_letter (d : Decimal.uint) (c : char) :
  is_ascii_digit c = false -> ~ In c (digit_codes d).
Proof.
  intros C I. pose proof (digit_codes_digits d) as F.
  rewrite forallb_forall in F. rewrite (F c I) in C. discriminate.
Qed.

Lemma extract_timestamp_app_none (unicode_Nd : char -> bool)
    (url tail : str) (c : char) :
  c <> 116%N -> c <> 61%N -> re_digit unicode_Nd c = false ->
  extract_timestamp unicode_Nd url = None ->
  extract_timestamp unicode_Nd tail = None ->
  extract_timestamp unicode_Nd (url ++ c :: tail) = None.
Proof.
  intros C1 C2 C3. induction url as [|x url IH]; intros E T.
  - cbn [app extract_timestamp].
    now rewrite (timestamp_here_letter unicode_Nd c tail C1).
  - pose proof (extract_timestamp_none unicode_Nd [] (x :: url) E) as H.
    pose proof (timestamp_here_app unicode_Nd (x :: url) tail c C1 C2 C3 H)
      as H'.
    cbn [app] in H' |- *. cbn [extract_timestamp]. rewrite H'.
    exact (IH (extract_timestamp_tail unicode_Nd x url E) T).
Qed.

Lemma time_markers_plain (s : str) :
  ~ In 38%N s -> ~ In 35%N s -> ~ In 63%N s -> time_markers s = [].
Proof.
  induction s as [|c s IH]; intros A B C; [reflexivity|].
  cbn [time_markers].
  assert (X : is_amp_or_hash c || (c =? 63)%N = false).
  { unfold is_amp_or_hash.
    rewrite !(proj2 (N.eqb_neq c _)); [reflexivity|..];
      intros ->; [apply C|apply B|apply A]; now left. }
  rewrite X. apply IH; intros I; [apply A|apply B|apply C]; now right.
Qed.

(** X20.  A negative start time leaves no usable marker.  On a reference
    that parses to the identifier [g] and in which no [t=] is followed by
    a digit, with a start time whose integer part is negative,
    [create_timestamp_url] appends [t=-...s]; the result carries no time
    marker, and the web-view player's [load_video] embeds video [g]
    without a start second. *)
Theorem negative_time_plays_from_the_start (unicode_Nd : char -> bool)
    (video_url : str) (start_time : float) (g : str) (n : Z) :
  extract_video_id video_url = Ok g ->
  extract_timestamp unicode_Nd video_url = None ->
  int_of_float start_time = Ok n ->
  (n < 0)%Z ->
  exists timestamp_url,
    create_timestamp_url unicode_Nd video_url start_time = Ok timestamp_url
    /\ time_markers timestamp_url = []
    /\ load_video unicode_Nd timestamp_url
       = Some (lit "https://www.youtube.com/embed/" ++ g
               ++ lit "?autoplay=1").
Proof.
  intros X E I P. rewrite (create_timestamp_url_fresh unicode_Nd _ _ _ E I).
  destruct (decimal_negative n P) as [d ->].
  eexists. split; [reflexivity|].
  assert (T : forall c : char,
             c = 38%N \/ c = 63%N ->
             time_markers
               (video_url ++ c :: lit "t=" ++ (45%N :: digit_codes d)
                ++ lit "s") = []
             /\ load_video unicode_Nd
                  (video_url ++ c :: lit "t=" ++ (45%N :: digit_codes d)
                   ++ lit "s")
                = Some (lit "https://www.youtube.com/embed/" ++ g
                        ++ lit "?autoplay=1")).
  { intros c C. split.
    - rewrite (time_markers_fresh unicode_Nd video_url _ c);
        [|destruct C as [-> | ->]; try discriminate; reflexivity..|exact E].
      assert (M : is_amp_or_hash c || (c =? 63)%N = true)
        by (destruct C as [-> | ->]; reflexivity).
      cbn [time_markers]. rewrite M.
      rewrite (proj2 (strip_prefix_app (lit "t=") _
                        ((45%N :: digit_codes d) ++ lit "s")) eq_refl).
      cbn [app]. change (is_ascii_digit 45%N) with false. cbv iota.
      apply time_markers_plain; rewrite lit_t_eq; cbn [app];
        (intros [H|[H|[H|H]]]; try discriminate;
         apply in_app_or in H as [H|[H|[]]]; [|discriminate];
         revert H; now apply digits_no_letter).
    - unfold load_video. rewrite first_match_first.
      rewrite (re_search_app video_url _ g c);
        [|destruct C as [-> | ->]; try discriminate; reflexivity..
         |now apply extract_video_id_search].
      destruct (extract_video_id_is_id _ _ X) as [L _].
      destruct g as [|g0 g']; [discriminate|].
      rewrite (extract_timestamp_app_none unicode_Nd video_url _ c);
        [now rewrite <- app_assoc
        |destruct C as [-> | ->]; try discriminate; reflexivity..
        |exact E|].
      cbn [app]. apply extract_timestamp_minus.
      intros H. apply in_app_or in H as [H|[H|[]]]; [|discriminate].
      revert H. now apply digits_no_letter. }
  destruct (contains (lit "?") video_url).
  - exact (T 38%N (or_introl eq_refl)).
  - exact (T 63%N (or_intror eq_refl)).
Qed.

(** ** Search Engine: when a search raises *)




(** ** The list file *)

Lemma In_lstrip (c : char) (s : str) : In c (lstrip s) -> In c s.
Proof.
  induction s as [|x s IH]; simpl; [auto|].
  destruct (is_space x); [auto|]. simpl. auto.
Qed.

Lemma In_strip (c : char) (s : str) : In c (strip s) -> In c s.
Proof.
  unfold strip. intros H. apply in_rev, In_lstrip in H.
  apply in_rev, In_lstrip in H. exact H.
Qed.

Lemma lstrip_app_space (s : str) (c : char) :
  is_space c = true ->
  lstrip (s ++ [c])
  = match lstrip s with [] => [] | _ :: _ => lstrip s ++ [c] end.
Proof.
  intros E. induction s as [|x s IH]; simpl; [now rewrite E|].
  destruct (is_space x); [exact IH | reflexivity].
Qed.

Lemma strip_snoc_space (s : str) (c : char) :
  is_space c = true -> strip (s ++ [c]) = strip s.
Proof.
  intros E. unfold strip. rewrite (lstrip_app_space s c E).
  destruct (lstrip s) as [|x l]; [reflexivity|].
  rewrite rev_app_distr. simpl rev at 2. cbn [app lstrip]. now rewrite E.
Qed.

Lemma universal_newlines_no_cr (s : str) : ~ In 13%N (universal_newlines s).
Proof.
  assert (H : forall n s, List.length s <= n ->
                          ~ In 13%N (universal_newlines s)).
  { clear s. induction n as [|n IH]; intros s L.
    - destruct s; [simpl; auto|simpl in L; lia].
    - destruct s as [|c s]; [simpl; auto|]. simpl in L.
      cbn [universal_newlines]. destruct (N.eqb_spec c 13) as [->|C].
      + intros [E|I]; [discriminate|]. revert I.
        destruct s as [|d s]; [simpl; auto|]. simpl in L.
        destruct (d =? 10)%N; apply IH; simpl; lia.
      + intros [E|I]; [congruence|]. revert I. apply IH. lia. }
  exact (H (List.length s) s (le_n _)).
Qed.

Lemma universal_newlines_id (s : str) :
  ~ In 13%N s -> universal_newlines s = s.
Proof.
  induction s as [|c s IH]; intros H; [reflexivity|].
  cbn [universal_newlines]. rewrite (proj2 (N.eqb_neq c 13)).
  - f_equal. apply IH. intros I. apply H. now right.
  - intros ->. apply H. now left.
Qed.

Lemma readlines_chars (s : str) (line : str) (c : char) :
  In line (readlines s) -> In c line -> In c s.
Proof.
  revert line. induction s as [|x s IH]; intros line; [contradiction|].
  cbn [readlines]. destruct (x =? 10)%N.
  - intros [<-|I] C.
    + destruct C as [->|[]]. now left.
    + right. exact (IH line I C).
  - destruct (readlines s) as [|l ls].
    + intros [<-|[]] [->|[]]. now left.
    + intros [<-|I] C.
      * destruct C as [->|C]; [now left|right].
        apply (IH l); [now left|exact C].
      * right. apply (IH line); [now right|exact C].
Qed.

Lemma readlines_shape (s : str) :
  Forall (fun line =>
            exists body, (line = body ++ [10%N] \/ line = body)
                         /\ ~ In 10%N body) (readlines s).
Proof.
  induction s as [|x s IH]; [constructor|].
  cbn [readlines]. destruct (N.eqb_spec x 10) as [->|X].
  - constructor; [|exact IH]. exists []. split; [now left|auto].
  - destruct (readlines s) as [|l ls].
    + constructor; [|constructor]. exists [x]. split; [now right|].
      intros [E|[]]. congruence.
    + inversion IH as [|? ? (body & B & NB) IH']; subst.
      constructor; [|exact IH']. exists (x :: body). split.
      * destruct B as [-> | ->]; [now left|now right].
      * intros [E|I]; [congruence|auto].
Qed.

Lemma strip_line (line body : str) :
  line = body ++ [10%N] \/ line = body -> strip line = strip body.
Proof.
  intros [-> | ->]; [|reflexivity]. now apply strip_snoc_space.
Qed.

(** X22.  [load_video_urls_from_file] returns references only: none is
    empty, none starts with [#], none has white space at its ends, none
    has a line break inside.  A file that is not there gives the empty
    list. *)
Theorem loaded_references_are_clean (f : option str) (u : str) :
  load_video_urls_from_file None = []
  /\ (In u (load_video_urls_from_file f) ->
      u <> [] /\ starts_with (lit "#") u = false /\ strip u = u
      /\ one_line u).
Proof.
  split; [reflexivity|]. destruct f as [text|]; [|contradiction].
  cbn [load_video_urls_from_file]. intros I.
  apply filter_In in I as [I K]. apply in_map_iff in I as (line & <- & I).
  split; [|split; [|split]].
  - intros E. rewrite E in K. discriminate.
  - unfold is_url_line in K. destruct (strip line); [discriminate|].
    now apply negb_true_iff in K.
  - apply strip_idem.
  - pose proof (proj1 (Forall_forall _ _)
                  (readlines_shape (universal_newlines text)) line I)
      as (body & B & NB).
    split.
    + rewrite (strip_line line body B). intros C. apply NB.
      exact (In_strip _ _ C).
    + intros C. apply In_strip in C.
      apply (universal_newlines_no_cr text).
      exact (readlines_chars _ line _ I C).
Qed.

Lemma readlines_one (x : str) :
  ~ In 10%N x -> readlines x = match x with [] => [] | _ => [x] end.
Proof.
  induction x as [|c x IH]; intros H; [reflexivity|].
  cbn [readlines]. rewrite (proj2 (N.eqb_neq c 10)).
  - rewrite IH; [now destruct x|]. intros I. apply H. now right.
  - intros ->. apply H. now left.
Qed.

Lemma readlines_app (x s : str) :
  ~ In 10%N x -> readlines (x ++ 10%N :: s) = (x ++ [10%N]) :: readlines s.
Proof.
  induction x as [|c x IH]; intros H; [reflexivity|].
  cbn [app readlines]. rewrite (proj2 (N.eqb_neq c 10)).
  - rewrite IH; [reflexivity|]. intros I. apply H. now right.
  - intros ->. apply H. now left.
Qed.

Lemma join_lines_no_cr (lines : list str) :
  Forall one_line lines -> ~ In 13%N (join_lines lines).
Proof.
  induction 1 as [|x rest [_ X] _ IH]; [simpl; auto|].
  cbn [join_lines]. destruct rest as [|y rest]; [exact X|].
  intros I. apply in_app_or in I as [I|[E|I]]; [auto|discriminate|auto].
Qed.

(** X23.  A list file written as the lines joined by ["\n"], as [main]
    writes its example file, loads back to the lines that are references:
    each line stripped, without the empty ones and those that start with
    [#]. *)
Theorem joined_lines_load_back (lines : list str) :
  Forall one_line lines ->
  load_video_urls_from_file (Some (join_lines lines))
  = filter is_url_line (map strip lines).
Proof.
  intros H. cbn [load_video_urls_from_file].
  rewrite (universal_newlines_id _ (join_lines_no_cr lines H)).
  induction H as [|x rest [X _] H IH]; [reflexivity|].
  cbn [join_lines]. destruct rest as [|y rest].
  - rewrite (readlines_one x X). destruct x; reflexivity.
  - rewrite (readlines_app x _ X). cbn [map filter].
    assert (S : strip (x ++ [10%N]) = strip x)
      by exact (strip_snoc_space x 10%N eq_refl).
    rewrite S, IH. reflexivity.
Qed.

(** ** Statistics after a batch *)










(** ** Clock texts *)

Lemma clock_value_digits (l rest : str) :
  forallb is_ascii_digit l = true ->
  forall acc field,
    clock_value acc field (l ++ rest)
    = clock_value acc (digits_value field l) rest.
Proof.
  induction l as [|c l IH]; intros D acc field; [reflexivity|].
  cbn [forallb] in D. apply andb_true_iff in D as [D1 D2].
  cbn [app clock_value digits_value]. rewrite D1.
  assert (C : (c =? 58)%N = false).
  { unfold is_ascii_digit in D1. apply andb_true_iff in D1 as [_ B].
    apply N.leb_le in B. apply N.eqb_neq. lia. }
  rewrite C. apply IH. exact D2.
Qed.

Lemma digits_value_decimal (n : Z) :
  (0 <= n)%Z -> digits_value 0 (decimal n) = n.
Proof.
  intros P. destruct (decimal_codes n P) as (d & _ & -> & V).
  rewrite <- (app_nil_r (digit_codes d)).
  rewrite digits_value_codes; [exact V|exact I].
Qed.

Lemma pad2_digits (n : Z) :
  (0 <= n)%Z ->
  forallb is_ascii_digit (pad2 n) = true /\ digits_value 0 (pad2 n) = n.
Proof.
  intros P. destruct (decimal_digits n P) as [_ D]. unfold pad2.
  destruct (List.length (decimal n) <? 2)%nat.
  - change (lit "0") with [48%N]. cbn [app forallb digits_value].
    change (is_ascii_digit 48%N) with true. cbv iota. cbn [andb].
    split; [exact D|]. exact (digits_value_decimal n P).
  - split; [exact D|]. exact (digits_value_decimal n P).
Qed.

Lemma clock_value_field (n : Z) (rest : str) (acc : Z) :
  (0 <= n)%Z ->
  clock_value acc 0 (pad2 n ++ rest) = clock_value acc n rest.
Proof.
  intros P. destruct (pad2_digits n P) as [D V].
  now rewrite (clock_value_digits _ rest D), V.
Qed.

(** X25.  The clock text of [format_time] reads back to the time.  For a
    start time whose integer part is [total], the text stands for
    [total] seconds when [total] is not negative; a negative [total]
    is shown as [total] modulo one hour, without a sign. *)
Theorem format_time_reads_back (seconds : float) (total : Z) :
  int_of_float seconds = Ok total ->
  exists text,
    format_time seconds = Ok text
    /\ clock_value 0 0 text
       = (if (0 <=? total)%Z then total else total mod 3600)%Z.
Proof.
  intros I. unfold format_time. rewrite I. cbn [bind].
  assert (M : (0 <= (total mod 3600) / 60)%Z)
    by (apply Z.div_pos; [apply Z.mod_pos_bound|]; lia).
  assert (S : (0 <= total mod 60)%Z) by (apply Z.mod_pos_bound; lia).
  change (lit ":") with [58%N].
  assert (E : ((total mod 3600) mod 60 = total mod 60)%Z)
    by (apply Z.mod_mod_divide; exists 60%Z; lia).
  pose proof (Z.div_mod total 3600 ltac:(lia)) as D1.
  pose proof (Z.div_mod (total mod 3600) 60 ltac:(lia)) as D2.
  pose proof (Z.mod_pos_bound total 3600 ltac:(lia)) as B.
  destruct (Z.gtb_spec (total / 3600) 0) as [H|H]; eexists;
    (split; [reflexivity|]).
  - rewrite (clock_value_field (total / 3600)) by lia.
    cbn [app clock_value N.eqb Pos.eqb].
    rewrite (clock_value_field _ _ _ M). cbn [app clock_value N.eqb Pos.eqb].
    rewrite <- (app_nil_r (pad2 (total mod 60))).
    rewrite (clock_value_field _ _ _ S). cbn [clock_value].
    destruct (Z.leb_spec 0 total) as [P|P]; lia.
  - rewrite (clock_value_field _ _ _ M). cbn [app clock_value N.eqb Pos.eqb].
    rewrite <- (app_nil_r (pad2 (total mod 60))).
    rewrite (clock_value_field _ _ _ S). cbn [clock_value].
    destruct (Z.leb_spec 0 total) as [P|P]; lia.
Qed.

(** * The statements on the sample data *)

Lemma unparsable_reference_outcome_sample :
  process_single_video sample_fetcher malformed_url empty_world
  = ({| Outcome.video_id := lit "unknown";
        Outcome.url := malformed_url;
        Outcome.status := error;
        Outcome.error :=
          Some (lit "Could not extract video ID from URL: " ++ malformed_url);
        Outcome.subtitle_count := 0 |}, empty_world).
Proof.
  refine (proj1 (proj2 (unparsable_reference_outcome sample_fetcher
                          malformed_url empty_world _))).
  unfold patterns.
  repeat (constructor; [vm_compute; reflexivity|]). constructor.
Defined.

Lemma subtitles_key_unique_sample :
  let r1 := sample_row "aaaaaaaaaaa" "neko" 90 in
  let r2 :=
    {| video_id := video_id r1; video_url := video_url r1;
       japanese_text := japanese_text r1; start_time := start_time r1;
       end_time := 95%float; duration := 5%float; sequence_number := 7 |} in
  insert_or_ignore (fst (insert_or_ignore sample_table r1)) r2
  = (fst (insert_or_ignore sample_table r1), 0%Z)
  /\ key_count (fst (insert_or_ignore sample_table r1)) r1 = 1.
Proof.
  intros r1 r2.
  refine (proj2 (proj2 subtitles_key_unique) sample_table r1 r2 _ _ _ _ _);
    try reflexivity.
  unfold unique_keys, sample_table.
  repeat (constructor; [repeat (constructor; [vm_compute; reflexivity|]);
                        constructor|]).
  constructor.
Defined.

Lemma ingestion_idempotent_sample :
  Outcome.status
    (fst (process_single_video sample_fetcher sample_url
            (snd (process_single_video sample_fetcher sample_url
                    empty_world))))
  = skipped.
Proof.
  refine (proj1 (ingestion_idempotent sample_fetcher sample_url
                   empty_world _)).
  vm_compute. reflexivity.
Defined.




Lemma batch_always_reports_sample :
  exists report w',
    process_video_list sample_fetcher (fun urls => urls)
      [sample_url; malformed_url; sample_url] None empty_world
    = (Ok report, w')
    /\ (Report.success report + Report.failed report
        + Report.skipped report + Report.no_subtitles report)%Z
       = 3%Z.
Proof.
  assert (H1 : (0 < default 3 None)%Z) by (simpl; lia).
  assert (H2 : Permutation [sample_url; malformed_url; sample_url]
                 [sample_url; malformed_url; sample_url])
    by reflexivity.
  destruct (batch_always_reports sample_fetcher (fun urls => urls)
              [sample_url; malformed_url; sample_url] None empty_world
              H1 H2) as (report & w' & E & S & _).
  exists report, w'. split; [exact E | exact S].
Defined.

Lemma falsy_filters_are_absent_sample :
  advanced_search ascii_only (lit "neko") (Some falsy_filters) sample_table
  = advanced_search ascii_only (lit "neko") None sample_table.
Proof.
  refine (proj2 (falsy_filters_are_absent ascii_only (lit "neko")
                   falsy_filters sample_table _ _ _ _));
    vm_compute; reflexivity.
Defined.

(** The sample track, ingested and searched: five events give three
    stored rows; the search for one caption finds it, with a replay
    reference that carries the marker 5. *)
Example ingest_then_search_sample :
  let run := process_single_video sample_fetcher sample_url empty_world in
  Outcome.status (fst run) = success
  /\ Outcome.subtitle_count (fst run) = 3%Z
  /\ map sequence_number (db (snd run)) = [0; 2; 4]%Z
  /\ fs (snd run) = []
  /\ match search_word_in_subtitles ascii_only (lit "さようなら") None None
             (db (snd run)) with
     | Ok [q] =>
         Result.start_time q = 5%float
         /\ Result.timestamp_url q = sample_url ++ lit "&t=5s"
         /\ time_markers (Result.timestamp_url q) = [5%Z]
     | _ => False
     end.
Proof.
  vm_compute. repeat split; reflexivity.
Qed.

(** Rows of two videos inserted in alternation come back grouped by
    video, each group in ascending order of start time. *)
Example search_groups_by_video_sample :
  match search_word_in_subtitles ascii_only (lit "neko") None None
          sample_table with
  | Ok rs =>
      map (fun q => (Result.video_id q, Result.start_time q)) rs
      = [ (lit "aaaaaaaaaaa", 90%float);
          (lit "aaaaaaaaaaa", 95.5%float);
          (lit "bbbbbbbbbbb", 89.9%float);
          (lit "bbbbbbbbbbb", 100%float);
          (lit "bbbbbbbbbbb", 110%float) ]
  | Raise _ => False
  end.
Proof.
  vm_compute. reflexivity.
Qed.

Lemma batch_stores_well_formed_captions_sample :
  Forall caption_ok
    (db (snd (process_video_list sample_fetcher (fun urls => urls)
                [sample_url; malformed_url] None empty_world))).
Proof.
  apply (batch_stores_well_formed_captions sample_fetcher (fun urls => urls)
           [sample_url; malformed_url] None empty_world).
  constructor.
Defined.

Lemma batch_keeps_keys_unique_sample :
  unique_keys
    (db (snd (process_video_list sample_fetcher (fun urls => urls)
                [sample_url; malformed_url] None empty_world))).
Proof.
  apply (batch_keeps_keys_unique sample_fetcher (fun urls => urls)
           [sample_url; malformed_url] None empty_world).
  constructor.
Defined.

Lemma ingested_reference_stays_skipped_sample :
  let run1 :=
    process_video_list sample_fetcher (fun urls => urls) [sample_url] None
      empty_world in
  let run2 :=
    process_video_list (fun _ _ fs => (Died, fs)) (@rev str)
      [sample_url; malformed_url] (Some 2%Z) (snd run1) in
  Outcome.status (hd (error_outcome [] (ValueError []))
                    (Report.details (report_of run2)))
  = error
  /\ Outcome.status (nth 1 (Report.details (report_of run2))
                       (error_outcome [] (ValueError [])))
     = skipped.
Proof.
  intros run1 run2. split; [vm_compute; reflexivity|].
  refine (ingested_reference_stays_skipped sample_fetcher
            (fun _ _ fs => (Died, fs)) (fun urls => urls) (@rev str)
            [sample_url] [sample_url; malformed_url] None (Some 2%Z)
            empty_world (snd run1) (snd run2) (report_of run1)
            (report_of run2) _ _
            (hd (error_outcome [] (ValueError []))
               (Report.details (report_of run1)))
            (nth 1 (Report.details (report_of run2))
               (error_outcome [] (ValueError []))) _ _ _ _).
  - vm_compute. reflexivity.
  - vm_compute. reflexivity.
  - vm_compute. left. reflexivity.
  - vm_compute. right. left. reflexivity.
  - left. vm_compute. reflexivity.
  - vm_compute. reflexivity.
Defined.

Lemma fetch_only_when_absent_sample :
  let w1 := snd (process_single_video sample_fetcher sample_url empty_world) in
  snd (process_single_video sample_fetcher sample_url w1) = w1.
Proof.
  intros w1.
  refine (proj1 (proj2 (proj2 (fetch_only_when_absent sample_fetcher
                                 sample_url w1))
                   (lit "dQw4w9WgXcQ") _ _)).
  - vm_compute. reflexivity.
  - vm_compute. reflexivity.
Defined.

Lemma total_subtitles_counts_rows_sample :
  let run :=
    process_video_list sample_fetcher (fun urls => urls)
      [sample_url; malformed_url] None empty_world in
  Report.total_subtitles (report_of run)
  = sum_Z (map (count_video (db (snd run)))
             (batch_ids [sample_url; malformed_url])).
Proof.
  intros run.
  refine (total_subtitles_counts_rows sample_fetcher (fun urls => urls)
            [sample_url; malformed_url] None empty_world (snd run)
            (report_of run) _ _ _).
  - reflexivity.
  - vm_compute. constructor; [intros []|constructor].
  - vm_compute. reflexivity.
Defined.

Lemma parsing_again_adds_nothing_sample :
  let w1 :=
    snd (parse_subtitle_file (lit "dQw4w9WgXcQ") sample_url (lit "subtitles")
           fetched_world) in
  let w2 := {| db := db w1; fs := fs fetched_world; fetched := [] |} in
  fst (parse_subtitle_file (lit "dQw4w9WgXcQ") sample_url (lit "subtitles")
         w2) = 0%Z.
Proof.
  intros w1 w2.
  refine (proj1 (parsing_again_adds_nothing (lit "dQw4w9WgXcQ") sample_url
                   (lit "subtitles") fetched_world w2 [] _ _)).
  - reflexivity.
  - vm_compute. reflexivity.
Defined.


Lemma unconvertible_track_stores_nothing_sample :
  parse_subtitle_file (lit "dQw4w9WgXcQ") sample_url (lit "subtitles")
    broken_world
  = (0%Z, broken_world).
Proof.
  apply (unconvertible_track_stores_nothing (lit "dQw4w9WgXcQ") sample_url
           (lit "subtitles") broken_world).
  intros path events P R. destruct P as [<-|[<-|[]]].
  - vm_compute in R. injection R as <-.
    exists {| segs := Some [ {| utf8 := Some (lit "late") |} ];
              tStartMs := Some (10 ^ 400)%Z; dDurationMs := None |}.
    split; [right; left; reflexivity|].
    split; [vm_compute; discriminate|].
    split; [vm_compute; discriminate|].
    intros (s & d & S & _). vm_compute in S. discriminate.
  - vm_compute in R. discriminate.
Defined.

Lemma extract_video_id_shape_sample :
  is_video_id (lit "dQw4w9WgXcQ").
Proof.
  refine (proj1 (proj1 (extract_video_id_shape sample_url)
                   (lit "dQw4w9WgXcQ") _)).
  vm_compute. reflexivity.
Defined.

Lemma canonical_references_parse_sample :
  extract_video_id
    (lit "https://www.youtube.com/watch?v=" ++ lit "dQw4w9WgXcQ"
     ++ lit "&t=5s")
  = Ok (lit "dQw4w9WgXcQ").
Proof.
  refine (proj1 (canonical_references_parse (lit "dQw4w9WgXcQ")
                   (lit "&t=5s") _)).
  split; vm_compute; reflexivity.
Defined.


Lemma replay_reference_plays_sample :
  exists timestamp_url,
    create_timestamp_url ascii_only sample_url 95.5%float = Ok timestamp_url
    /\ load_video ascii_only timestamp_url
       = Some (lit "https://www.youtube.com/embed/" ++ lit "dQw4w9WgXcQ"
               ++ lit "?start=" ++ decimal 95 ++ lit "&autoplay=1").
Proof.
  refine (replay_reference_plays ascii_only sample_url 95.5%float
            (lit "dQw4w9WgXcQ") 95%Z _ _ _ _).
  - vm_compute. reflexivity.
  - vm_compute. reflexivity.
  - vm_compute. reflexivity.
  - lia.
Defined.

Lemma substring_search_finds_occurrences_sample :
  let rs :=
    match search_word_in_subtitles ascii_only (lit "NEKO") None None
            sample_table with
    | Ok rs => rs
    | Raise _ => []
    end in
  In (sample_row "bbbbbbbbbbb" "inu to neko" 89.9) (map row_of rs).
Proof.
  intros rs.
  assert (N : nul_free (lit "NEKO")).
  { vm_compute. intros H.
    repeat (destruct H as [H|H]; [discriminate|]). exact H. }
  assert (T : Forall (fun r => nul_free (japanese_text r)) sample_table).
  { unfold sample_table.
    repeat (constructor;
            [vm_compute; intros H;
             repeat (destruct H as [H|H]; [discriminate|]); exact H|]).
    constructor. }
  assert (P : plain (lit "NEKO")).
  { split; vm_compute; intros H;
      repeat (destruct H as [H|H]; [discriminate|]); exact H. }
  refine (proj2 (substring_search_finds_occurrences ascii_only (lit "NEKO")
                   None None sample_table rs _ P N T _ _) _ _ _ _).
  - unfold within_like_limit. vm_compute. discriminate.
  - reflexivity.
  - vm_compute. reflexivity.
  - right. vm_compute. reflexivity.
  - vm_compute. right. right. left. reflexivity.
  - exists (lit "inu to "), (lit "neko"), []. split; vm_compute; reflexivity.
Defined.

Lemma exact_results_among_substring_results_sample :
  match search_word_in_subtitles ascii_only (lit "neko") (Some true)
          (Some 1%Z) sample_table,
        search_word_in_subtitles ascii_only (lit "neko") None None
          sample_table with
  | Ok rs1, Ok rs2 => incl rs1 rs2
  | _, _ => False
  end.
Proof.
  destruct (search_word_in_subtitles ascii_only (lit "neko") (Some true)
              (Some 1%Z) sample_table) as [rs1|e1] eqn:E1;
    [|vm_compute in E1; discriminate].
  destruct (search_word_in_subtitles ascii_only (lit "neko") None None
              sample_table) as [rs2|e2] eqn:E2;
    [|vm_compute in E2; discriminate].
  refine (exact_results_among_substring_results ascii_only (lit "neko")
            None (Some 1%Z) None sample_table rs1 rs2 _ _ E1 E2 _).
  - unfold within_like_limit. vm_compute. discriminate.
  - reflexivity.
  - right. vm_compute in E2. injection E2 as <-. vm_compute. reflexivity.
Defined.

Lemma advanced_search_respects_filters_sample :
  match advanced_search ascii_only (lit "neko") (Some sample_filters)
          sample_table with
  | Ok (res :: _) => In (Result.video_id res) [lit "aaaaaaaaaaa"]
  | _ => False
  end.
Proof.
  destruct (advanced_search ascii_only (lit "neko") (Some sample_filters)
              sample_table) as [[|res rs]|e] eqn:E;
    [vm_compute in E; discriminate| |vm_compute in E; discriminate].
  assert (L : within_like_limit (lit "neko"))
    by (unfold within_like_limit; vm_compute; discriminate).
  destruct (advanced_search_respects_filters ascii_only (lit "neko")
              sample_filters sample_table (res :: rs) L E res
              (or_introl eq_refl)) as (_ & _ & _ & _ & V & _).
  apply (V [lit "aaaaaaaaaaa"]); [reflexivity|discriminate].
Defined.


Lemma negative_time_plays_from_the_start_sample :
  exists timestamp_url,
    create_timestamp_url ascii_only sample_url (-5.5)%float
    = Ok timestamp_url
    /\ time_markers timestamp_url = []
    /\ load_video ascii_only timestamp_url
       = Some (lit "https://www.youtube.com/embed/" ++ lit "dQw4w9WgXcQ"
               ++ lit "?autoplay=1").
Proof.
  refine (negative_time_plays_from_the_start ascii_only sample_url
            (-5.5)%float (lit "dQw4w9WgXcQ") (-5)%Z _ _ _ _).
  - vm_compute. reflexivity.
  - vm_compute. reflexivity.
  - vm_compute. reflexivity.
  - lia.
Defined.


Lemma loaded_references_are_clean_sample :
  strip (lit "https://youtu.be/dQw4w9WgXcQ")
  = lit "https://youtu.be/dQw4w9WgXcQ".
Proof.
  refine (proj1 (proj2 (proj2
            (proj2 (loaded_references_are_clean
                      (Some (lit "# list" ++ [10%N]
                             ++ lit "  https://youtu.be/dQw4w9WgXcQ " ++ [13%N; 10%N]))
                      (lit "https://youtu.be/dQw4w9WgXcQ")) _)))).
  vm_compute. left. reflexivity.
Defined.

Lemma joined_lines_load_back_sample :
  load_video_urls_from_file (Some (join_lines example_urls))
  = [sample_url; malformed_url].
Proof.
  assert (H : Forall one_line example_urls).
  { unfold example_urls.
    repeat (constructor;
            [split; vm_compute; intros H;
             repeat (destruct H as [H|H]; [discriminate|]); exact H|]).
    constructor. }
  rewrite (joined_lines_load_back example_urls H).
  vm_compute. reflexivity.
Defined.


Lemma format_time_reads_back_sample :
  exists text,
    format_time 3725.5%float = Ok text
    /\ clock_value 0 0 text = 3725%Z.
Proof.
  refine (format_time_reads_back 3725.5%float 3725%Z _).
  vm_compute. reflexivity.
Defined.

(** The references of the example list file, loaded and run as a batch:
    the first is stored with three captions, the second does not parse. *)
Example example_list_batch_sample :
  let run :=
    process_video_list sample_fetcher (fun urls => urls)
      (load_video_urls_from_file (Some (join_lines example_urls)))
      (Some 2%Z) empty_world in
  map Outcome.status (Report.details (report_of run)) = [success; error]
  /\ Report.total_subtitles (report_of run) = 3%Z
  /\ total_subtitle_entries (db (snd run)) = 3%Z
  /\ unique_videos (db (snd run)) = 1%Z.
Proof.
  vm_compute. repeat split; reflexivity.
Qed.

(** Clock texts at the edges: a time below one hour has two fields, one
    hour has three, and a negative time shows as the end of the hour. *)
Example format_time_sample :
  format_time 59.9%float = Ok (lit "00:59")
  /\ format_time 3600%float = Ok (lit "01:00:00")
  /\ format_time (-1)%float = Ok (lit "59:59").
Proof.
  vm_compute. repeat split; reflexivity.
Qed.

(** A reference that already carries a time plays from the old one: the
    player reads the first marker, the builder appended the second. *)
Example stale_marker_plays_sample :
  load_video ascii_only (lit "https://youtu.be/dQw4w9WgXcQ?t=30s&t=45s")
  = Some (lit "https://www.youtube.com/embed/dQw4w9WgXcQ?start=30&autoplay=1").
Proof.
  vm_compute. reflexivity.
Qed.
